(** * goavatar: a verified model of the identicon generator

    This development embeds the Go package [goavatar] (options, hashing,
    [drawPixel] and [Make]) in Rocq and proves the properties the
    package's specification states about it.

    Conventions.
    - Go's [int] is modelled by [Z]; [uint8] values are [Z]s in [0, 256).
    - A Go [string] is a byte sequence and is modelled by [string], whose
      characters are 8-bit [ascii] codes.
    - A run-time panic (index out of range, allocation of an impossible
      buffer) is the result [None]; normal completion is [Some]. *)

From Stdlib Require Import ZArith Lia List Ascii String.
From stdpp Require Import base option list numbers.
Import ListNotations.
Local Open Scope Z_scope.

(** ** crypto/md5 and encoding/hex

    [generateHash] calls [md5.Sum] and [hex.EncodeToString] of Go's
    standard library.  Both are written out here (MD5 after RFC 1321) so
    that the model runs on concrete inputs. *)

Module MD5.

Definition wrap32 (x : Z) : Z := x mod 2 ^ 32.

Definition not32 (x : Z) : Z := Z.lxor x 0xffffffff.

Definition rotl32 (x c : Z) : Z :=
  Z.lor (wrap32 (Z.shiftl x c)) (Z.shiftr x (32 - c)).

(** Per-round left-rotation amounts. *)
Definition shifts : list Z :=
  [ 7; 12; 17; 22; 7; 12; 17; 22; 7; 12; 17; 22; 7; 12; 17; 22;
    5; 9; 14; 20; 5; 9; 14; 20; 5; 9; 14; 20; 5; 9; 14; 20;
    4; 11; 16; 23; 4; 11; 16; 23; 4; 11; 16; 23; 4; 11; 16; 23;
    6; 10; 15; 21; 6; 10; 15; 21; 6; 10; 15; 21; 6; 10; 15; 21 ].

(** The additive constants, floor (2^32 * |sin (i + 1)|). *)
Definition K : list Z :=
  [ 0xd76aa478; 0xe8c7b756; 0x242070db; 0xc1bdceee;
    0xf57c0faf; 0x4787c62a; 0xa8304613; 0xfd469501;
    0x698098d8; 0x8b44f7af; 0xffff5bb1; 0x895cd7be;
    0x6b901122; 0xfd987193; 0xa679438e; 0x49b40821;
    0xf61e2562; 0xc040b340; 0x265e5a51; 0xe9b6c7aa;
    0xd62f105d; 0x02441453; 0xd8a1e681; 0xe7d3fbc8;
    0x21e1cde6; 0xc33707d6; 0xf4d50d87; 0x455a14ed;
    0xa9e3e905; 0xfcefa3f8; 0x676f02d9; 0x8d2a4c8a;
    0xfffa3942; 0x8771f681; 0x6d9d6122; 0xfde5380c;
    0xa4beea44; 0x4bdecfa9; 0xf6bb4b60; 0xbebfbc70;
    0x289b7ec6; 0xeaa127fa; 0xd4ef3085; 0x04881d05;
    0xd9d4d039; 0xe6db99e5; 0x1fa27cf8; 0xc4ac5665;
    0xf4292244; 0x432aff97; 0xab9423a7; 0xfc93a039;
    0x655b59c3; 0x8f0ccc92; 0xffeff47d; 0x85845dd1;
    0x6fa87e4f; 0xfe2ce6e0; 0xa3014314; 0x4e0811a1;
    0xf7537e82; 0xbd3af235; 0x2ad7d2bb; 0xeb86d391 ].

Definition at_ (l : list Z) (i : Z) : Z := nth (Z.to_nat i) l 0.

(** Little-endian bytes of a 32-bit word, and of a 64-bit length. *)
Definition le32 (w : Z) : list Z :=
  [ w mod 256; (w / 2 ^ 8) mod 256; (w / 2 ^ 16) mod 256; (w / 2 ^ 24) mod 256 ].

Definition le64 (w : Z) : list Z :=
  le32 (w mod 2 ^ 32) ++ le32 ((w / 2 ^ 32) mod 2 ^ 32).

(** Message followed by the bit 1, zero bytes up to 56 modulo 64, and
    the bit length on 64 bits. *)
Definition pad (msg : list Z) : list Z :=
  let len := Z.of_nat (length msg) in
  msg ++ 0x80 :: replicate (Z.to_nat ((55 - len) mod 64)) 0 ++ le64 (8 * len).

Fixpoint words (bs : list Z) : list Z :=
  match bs with
  | b0 :: b1 :: b2 :: b3 :: rest =>
      (b0 + b1 * 2 ^ 8 + b2 * 2 ^ 16 + b3 * 2 ^ 24) :: words rest
  | _ => []
  end.

Definition state : Type := Z * Z * Z * Z.

Definition init : state := (0x67452301, 0xefcdab89, 0x98badcfe, 0x10325476).

Definition step (M : list Z) (s : state) (i : Z) : state :=
  let '(a, b, c, d) := s in
  let '(f, g) :=
    if i <? 16 then (Z.lor (Z.land b c) (Z.land (not32 b) d), i)
    else if i <? 32 then (Z.lor (Z.land d b) (Z.land (not32 d) c), (5 * i + 1) mod 16)
    else if i <? 48 then (Z.lxor (Z.lxor b c) d, (3 * i + 5) mod 16)
    else (Z.lxor c (Z.lor b (not32 d)), (7 * i) mod 16) in
  let f' := wrap32 (f + a + at_ K i + at_ M g) in
  (d, wrap32 (b + rotl32 f' (at_ shifts i)), b, c).

Definition block (M : list Z) (s : state) : state :=
  let '(a0, b0, c0, d0) := s in
  let '(a, b, c, d) := foldl (step M) s (seqZ 0 64) in
  (wrap32 (a0 + a), wrap32 (b0 + b), wrap32 (c0 + c), wrap32 (d0 + d)).

Fixpoint blocks (n : nat) (ws : list Z) (s : state) : state :=
  match n with
  | O => s
  | S n' => blocks n' (drop 16 ws) (block (take 16 ws) s)
  end.

(** [md5.Sum]: the 16 digest bytes. *)
Definition Sum (data : list Z) : list Z :=
  let ws := words (pad data) in
  let '(a, b, c, d) := blocks (length ws / 16)%nat ws init in
  le32 a ++ le32 b ++ le32 c ++ le32 d.

End MD5.

(** Bytes of a Go string, and the string of a byte sequence. *)
Definition bytesOf (s : string) : list Z :=
  map (fun c => Z.of_N (N_of_ascii c)) (list_ascii_of_string s).

Definition hexDigit (d : Z) : ascii :=
  ascii_of_N (Z.to_N (if d <? 10 then 48 + d else 87 + d)).

(** [hex.EncodeToString]: two lower-case digits per byte, high nibble first. *)
Fixpoint EncodeToString (bs : list Z) : string :=
  match bs with
  | [] => EmptyString
  | b :: rest => String (hexDigit (b / 16)) (String (hexDigit (b mod 16)) (EncodeToString rest))
  end.

(** ** The package *)

(** [generateHash]: the MD5 hash of the input string, hex-encoded. *)
Definition generateHash (data : string) : string :=
  let hash := MD5.Sum (bytesOf data) in
  EncodeToString hash.

(** [color.RGBA]: four 8-bit channels.  The zero value [RGBA{}] is the
    "unset" sentinel. *)
Module color.
Record RGBA : Type := mk { R : Z; G : Z; B : Z; A : Z }.
Definition zero : RGBA := mk 0 0 0 0.
End color.

#[global] Instance RGBA_eq_dec : EqDecision color.RGBA.
Proof. solve_decision. Defined.

(** [s[i]] on a Go string: the byte at index [i]; out of range panics. *)
Definition byteAt (s : string) (i : Z) : option Z :=
  if i <? 0 then None
  else (fun c => Z.of_N (N_of_ascii c)) <$> String.get (Z.to_nat i) s.

(** A [for] loop over the elements of a list, threading the loop state;
    the body may panic. *)
Fixpoint forEach {A S : Type} (body : A -> S -> option S) (l : list A) (s : S) : option S :=
  match l with
  | [] => Some s
  | a :: l' => s' ← body a s; forEach body l' s'
  end.

(** [for i := lo; i < hi; i++ { body }]. *)
Definition forRange {S : Type} (lo hi : Z) (body : Z -> S -> option S) (s : S) : option S :=
  forEach body (seqZ lo (hi - lo)) s.

(** The configuration of the avatar generator. *)
Record options : Type := mkOptions {
  size : Z;
  gridSize : Z;
  bgColor : color.RGBA;
  fgColors : list color.RGBA;
  layers : Z
}.

(** An [OptFunc] receives a pointer to the configuration and updates it
    in place, or panics. *)
Definition OptFunc : Type := options -> option options.

Definition WithSize (s : Z) : OptFunc := fun o =>
  Some (if 64 <=? s
        then mkOptions s (gridSize o) (bgColor o) (fgColors o) (layers o)
        else o).

Definition WithGridSize (g : Z) : OptFunc := fun o =>
  Some (if 8 <? g
        then mkOptions (size o) g (bgColor o) (fgColors o) (layers o)
        else o).

Definition WithBgColor (r g b a : Z) : OptFunc := fun o =>
  Some (mkOptions (size o) (gridSize o) (color.mk r g b a) (fgColors o) (layers o)).

Definition WithFgColor (r g b a : Z) : OptFunc := fun o =>
  Some (mkOptions (size o) (gridSize o) (bgColor o) [color.mk r g b a] (layers o)).

Definition WithLayers (n : Z) : OptFunc := fun o =>
  Some (if (1 <=? n) && (n <=? 3)
        then mkOptions (size o) (gridSize o) (bgColor o) (fgColors o) n
        else o).

(** The loop [for len(o.fgColors) <= layerIndex { append zero }] of
    [WithLayerColor].  Each round makes the list one longer, so
    [layerIndex + 1 - len] rounds are enough ([expand_done]).  (The
    memory a huge index would take is not modelled.) *)
Fixpoint expandLoop (fuel : nat) (fg : list color.RGBA) (layerIndex : Z) : list color.RGBA :=
  match fuel with
  | O => fg
  | S fuel' =>
      if Z.of_nat (length fg) <=? layerIndex
      then expandLoop fuel' (fg ++ [color.zero]) layerIndex
      else fg
  end.

Definition expand (fg : list color.RGBA) (layerIndex : Z) : list color.RGBA :=
  expandLoop (Z.to_nat (layerIndex + 1 - Z.of_nat (length fg))) fg layerIndex.

(** [sl[i] = v] on a slice: out of range panics. *)
Definition setIndex {A : Type} (sl : list A) (i : Z) (v : A) : option (list A) :=
  if (0 <=? i) && (i <? Z.of_nat (length sl))
  then Some (<[Z.to_nat i := v]> sl)
  else None.

Definition WithLayerColor (layerIndex : Z) (r g b a : Z) : OptFunc := fun o =>
  let fg := expand (fgColors o) layerIndex in
  fg' ← setIndex fg layerIndex (color.mk r g b a);
  Some (mkOptions (size o) (gridSize o) (bgColor o) fg' (layers o)).

(** [defaultOptions]: the first three hash bytes are the foreground color. *)
Definition defaultOptions (hash : string) : option options :=
  h0 ← byteAt hash 0;
  h1 ← byteAt hash 1;
  h2 ← byteAt hash 2;
  Some (mkOptions 64 8 (color.mk 240 240 240 255) [color.mk h0 h1 h2 255] 1).

(** ** image.RGBA

    The buffer of [image.NewRGBA(image.Rect(0, 0, w, h))], one entry per
    pixel in row-major order.  [NewRGBA] panics when [4 * w * h] does not
    fit an [int] ([mul3NonNeg] returns -1).  [Make] passes its [size],
    which is at least 64 ([resolveOptions_bounds]), so [image.Rect] never
    has to reorder the corners. *)
Record Image : Type := mkImage {
  Pix : list color.RGBA;
  Dx : Z;
  Dy : Z
}.

Definition mul3NonNeg (x y z : Z) : Z :=
  if (x <? 0) || (y <? 0) || (z <? 0) then -1
  else if 2 ^ 64 <=? x * y then -1
  else if 2 ^ 64 <=? x * y * z then -1
  else if 2 ^ 63 <=? x * y * z then -1
  else x * y * z.

Definition NewRGBA (w h : Z) : option Image :=
  if mul3NonNeg 4 w h <? 0 then None
  else Some (mkImage (replicate (Z.to_nat (w * h)) color.zero) w h).

(** [draw.Draw(img, img.Bounds(), &image.Uniform{c}, image.Point{}, draw.Src)]:
    every pixel becomes [c]. *)
Definition fillUniform (img : Image) (c : color.RGBA) : Image :=
  mkImage (replicate (length (Pix img)) c) (Dx img) (Dy img).

Definition inBounds (img : Image) (x y : Z) : bool :=
  (0 <=? x) && (x <? Dx img) && (0 <=? y) && (y <? Dy img).

Definition PixOffset (img : Image) (x y : Z) : nat := Z.to_nat (y * Dx img + x).

(** [img.Set(x, y, c)]: points outside the bounds are ignored; a
    [color.RGBA] is stored as it is, channel by channel. *)
Definition Set_ (img : Image) (x y : Z) (c : color.RGBA) : Image :=
  if inBounds img x y
  then mkImage (<[PixOffset img x y := c]> (Pix img)) (Dx img) (Dy img)
  else img.

(** [img.At(x, y)]: the zero color outside the bounds. *)
Definition At (img : Image) (x y : Z) : color.RGBA :=
  if inBounds img x y
  then default color.zero (Pix img !! PixOffset img x y)
  else color.zero.

(** ** drawPixel

    [int(math.Round(float64(k) * float64(imageSize) / float64(gridSize)))].
    [math.Round] rounds half away from zero.  The float64 product and
    quotient are evaluated here as exact rationals; the two agree as long
    as [k * imageSize + gridSize] stays below 2^52.  A run of [Make] that
    completes has at most 32 rows (the hash has 32 characters) and an
    image side below 2^31 ([NewRGBA]), far inside that range.  [gridSize]
    is never 0 in [Make]. *)
Definition roundDiv (a g : Z) : Z :=
  Z.sgn a * Z.sgn g * ((2 * Z.abs a + Z.abs g) `quot` (2 * Z.abs g)).

Definition scaled (k imageSize gridSize : Z) : Z := roundDiv (k * imageSize) gridSize.

(** The block of a grid cell: [(startX, startY, endX, endY)] after the
    clamp to the image size. *)
Definition cellRect (img : Image) (gridX gridY gridSize imageSize : Z) : Z * Z * Z * Z :=
  let startX := scaled gridX imageSize gridSize in
  let startY := scaled gridY imageSize gridSize in
  let endX := scaled (gridX + 1) imageSize gridSize in
  let endY := scaled (gridY + 1) imageSize gridSize in
  let endX := if Dx img <? endX then Dx img else endX in
  let endY := if Dy img <? endY then Dy img else endY in
  (startX, startY, endX, endY).

Definition drawPixel (img : Image) (gridX gridY : Z) (c : color.RGBA)
    (gridSize imageSize : Z) : Image :=
  let '(startX, startY, endX, endY) := cellRect img gridX gridY gridSize imageSize in
  foldl (fun img y =>
           foldl (fun img x => Set_ img x y c) img (seqZ startX (endX - startX)))
        img (seqZ startY (endY - startY)).

(** ** Make *)

(** The pattern pass of one layer (the two nested loops of [Make]), for
    any action [draw x y] taken at an "on" cell: [Make] runs it with
    [drawPixel]; run with an action that records the cell, it yields the
    layer's pattern. *)
Section LayerPass.
Context {S : Type} (draw : Z -> Z -> S -> S).
Variables (currentHash : string) (gridSize : Z) (isOdd : bool).

(** [(currentHash[y]>>(x%8))&1 == 1] *)
Definition pixelOn (x y : Z) : option bool :=
  b ← byteAt currentHash y;
  Some (Z.land (Z.shiftr b (x `rem` 8)) 1 =? 1).

Definition layerRow (y : Z) (s : S) : option S :=
  s ← forRange 0 (gridSize `quot` 2) (fun x s =>
        on ← pixelOn x y;
        Some (if on : bool then draw (gridSize - 1 - x) y (draw x y s) else s)) s;
  if isOdd then
    let mid := gridSize `quot` 2 in
    on ← pixelOn mid y;
    Some (if on : bool then draw mid y s else s)
  else Some s.

Definition layerPass (s : S) : option S :=
  forRange 0 gridSize layerRow s.
End LayerPass.

(** [color.RGBA{currentHash[0], currentHash[1], currentHash[2], 255}] *)
Definition hashColor (currentHash : string) : option color.RGBA :=
  h0 ← byteAt currentHash 0;
  h1 ← byteAt currentHash 1;
  h2 ← byteAt currentHash 2;
  Some (color.mk h0 h1 h2 255).

(** The color of layer [l] ("determine color" in [Make]). *)
Definition avatarColor (o : options) (currentHash : string) (l : Z) : option color.RGBA :=
  if l <? Z.of_nat (length (fgColors o)) then
    c ← fgColors o !! Z.to_nat l;
    if decide (c = color.zero) then hashColor currentHash else Some c
  else hashColor currentHash.

(** One round of the layer loop; the loop state is [(currentHash, img)]. *)
Definition layerStep (o : options) (isOdd : bool) (l : Z) (st : string * Image)
    : option (string * Image) :=
  let currentHash := if 0 <? l then generateHash st.1 else st.1 in
  c ← avatarColor o currentHash l;
  img ← layerPass (fun x y img => drawPixel img x y c (gridSize o) (size o))
          currentHash (gridSize o) isOdd st.2;
  Some (currentHash, img).

(** The first [n] rounds of the layer loop. *)
Definition runLayers (o : options) (isOdd : bool) (n : Z) (st : string * Image)
    : option (string * Image) :=
  forRange 0 n (layerStep o isOdd) st.

(** The configuration [Make] works with: the defaults, then every option
    in order. *)
Definition resolveOptions (hash : string) (opts : list OptFunc) : option options :=
  o ← defaultOptions hash;
  forEach (fun opt o => opt o) opts o.

Definition Make (input : string) (opts : list OptFunc) : option Image :=
  let hash := generateHash input in
  o ← resolveOptions hash opts;
  img ← NewRGBA (size o) (size o);
  let img := fillUniform img (bgColor o) in
  let isOdd := negb (gridSize o `rem` 2 =? 0) in
  st ← runLayers o isOdd (layers o) (hash, img);
  Some st.2.

(** The pattern of a layer: the cells its pass draws, in drawing order. *)
Definition layerCells (currentHash : string) (gridSize : Z) : option (list (Z * Z)) :=
  layerPass (fun x y cells => cells ++ [(x, y)]) currentHash gridSize
    (negb (gridSize `rem` 2 =? 0)) [].

Definition cellOn (cells : list (Z * Z)) (x y : Z) : bool :=
  bool_decide ((x, y) ∈ cells).

(** The defaults for the input "test@example.com", whose hash starts
    with the characters "555"; used in examples. *)
Definition sampleOptions : options :=
  mkOptions 64 8 (color.mk 240 240 240 255) [color.mk 53 53 53 255] 1.

(** The options a caller of the package can build: [options] is not an
    exported type, so the six constructors are the only source of
    [OptFunc] values. *)
Inductive exported : OptFunc -> Prop :=
  | exported_WithSize s : exported (WithSize s)
  | exported_WithGridSize g : exported (WithGridSize g)
  | exported_WithBgColor r g b a : exported (WithBgColor r g b a)
  | exported_WithFgColor r g b a : exported (WithFgColor r g b a)
  | exported_WithLayers n : exported (WithLayers n)
  | exported_WithLayerColor layerIndex r g b a :
      exported (WithLayerColor layerIndex r g b a).

(** ** The pattern of a layer in closed form *)

(** Bit [x%8] of a hash byte, as [Make] tests it. *)
Definition bitOf (b x : Z) : bool := Z.land (Z.shiftr b (x `rem` 8)) 1 =? 1.

(** The cells one row draws, in order, when the row's hash byte is [b]. *)
Definition rowCells (b g : Z) (isOdd : bool) (y : Z) : list (Z * Z) :=
  (seqZ 0 (g `quot` 2) ≫= fun x => if bitOf b x then [(x, y); (g - 1 - x, y)] else [])
  ++ (if isOdd && bitOf b (g `quot` 2) then [(g `quot` 2, y)] else []).

Definition rowByte (h : string) (y : Z) : Z := default 0 (byteAt h y).

Definition gridCells (h : string) (g : Z) (isOdd : bool) : list (Z * Z) :=
  seqZ 0 g ≫= fun y => rowCells (rowByte h y) g isOdd y.

(** ** Layer digests, in the words of the specification

    Layer 0 uses the digest of the input; layer [l > 0] uses the digest
    obtained by hashing the digest of layer [l - 1]. *)
Fixpoint layerDigest (input : string) (l : nat) : string :=
  match l with
  | O => generateHash input
  | S l' => generateHash (layerDigest input l')
  end.

(** What the specification says of the bits of a pattern. *)
Definition followsBits (digest : string) (gridSize : Z) (cells : list (Z * Z)) : Prop :=
  forall y, 0 <= y < gridSize ->
    exists b, byteAt digest y = Some b /\
      (forall x, 0 <= x < gridSize / 2 ->
         cellOn cells x y = Z.testbit b (x mod 8) /\
         (cellOn cells x y = true -> cellOn cells (gridSize - 1 - x) y = true)) /\
      (Z.odd gridSize = true ->
         cellOn cells (gridSize / 2) y = Z.testbit b ((gridSize / 2) mod 8)).

Definition symmetric (gridSize : Z) (cells : list (Z * Z)) : Prop :=
  forall x y, 0 <= x < gridSize -> 0 <= y < gridSize ->
    cellOn cells x y = cellOn cells (gridSize - 1 - x) y.

(** ** The image buffer *)

Definition wfImage (img : Image) : Prop :=
  0 <= Dx img /\ 0 <= Dy img /\ length (Pix img) = Z.to_nat (Dx img * Dy img).

(** [painted img img' P c]: [img'] is [img] with the pixels of region [P]
    (those inside the bounds) set to [c] and every other pixel kept. *)
Definition painted (img img' : Image) (P : Z -> Z -> bool) (c : color.RGBA) : Prop :=
  Dx img' = Dx img /\ Dy img' = Dy img /\ wfImage img' /\
  forall px py,
    At img' px py = if inBounds img px py && P px py then c else At img px py.

(** A point lies in the block [(startX, startY, endX, endY)]. *)
Definition inRect (r : Z * Z * Z * Z) (px py : Z) : bool :=
  let '(startX, startY, endX, endY) := r in
  (startX <=? px) && (px <? endX) && (startY <=? py) && (py <? endY).

(** ** The blocks of the grid cells *)



(** ** The layer loop of Make *)

(** The blank image [Make] starts from: allocated, then filled with the
    background color. *)
Definition blankImage (o : options) : option Image :=
  img ← NewRGBA (size o) (size o);
  Some (fillUniform img (bgColor o)).

(** The state of the layer loop of [Make] after [n] rounds. *)
Definition layersOf (input : string) (o : options) (n : Z) : option (string * Image) :=
  bg ← blankImage o;
  runLayers o (negb (gridSize o `rem` 2 =? 0)) n (generateHash input, bg).

(** ** Layer colors, in the words of the specification *)

(** [c] is derived from the digest: (digest[0], digest[1], digest[2], 255). *)
Definition derivedColor (digest : string) (c : color.RGBA) : Prop :=
  exists d0 d1 d2,
    byteAt digest 0 = Some d0 /\ byteAt digest 1 = Some d1 /\
    byteAt digest 2 = Some d2 /\ c = color.mk d0 d1 d2 255.

(** The color of layer [l]: the color at index [l] of the list if there
    is one and it is not the all-zero sentinel, else the derived one. *)
Definition colorOfLayer (layerColors : list color.RGBA) (l : nat) (digest : string)
    (c : color.RGBA) : Prop :=
  match layerColors !! l with
  | Some c' => if decide (c' = color.zero) then derivedColor digest c else c = c'
  | None => derivedColor digest c
  end.

(** One round paints the blocks of the layer's pattern with the layer's
    color, on top of what was there. *)
Definition layerRegion (img : Image) (gridSize imageSize : Z) (cells : list (Z * Z))
    (px py : Z) : bool :=
  existsb (fun cell => inRect (cellRect img cell.1 cell.2 gridSize imageSize) px py) cells.

(** ** The oracle of the package's test

    [expectedTopLeftPixel] of the test file replays the configuration and
    the hash chain and predicts the color at (0, 0): the background,
    overwritten by every layer whose first hash character has bit 0 set.
    The round below is the body of its loop; the loop state is
    [(currentHash, finalColor)], and the color of a layer is determined by
    the same statements as in [Make] ([avatarColor]). *)
Definition expectedStep (conf : options) (l : Z) (st : string * color.RGBA)
    : option (string * color.RGBA) :=
  let currentHash := if 0 <? l then generateHash st.1 else st.1 in
  h0 ← byteAt currentHash 0;
  let pixelOn := Z.land h0 1 =? 1 in
  if pixelOn then
    layerColor ← avatarColor conf currentHash l;
    Some (currentHash, layerColor)
  else Some (currentHash, st.2).

Definition expectedTopLeftPixel (input : string) (opts : list OptFunc) : option color.RGBA :=
  let hash := generateHash input in
  conf ← resolveOptions hash opts;
  st ← forRange 0 (layers conf) (expectedStep conf) (hash, bgColor conf);
  Some st.2.

(** ** Statements about the finished image *)

(** The code of a lower-case hexadecimal digit: '0'..'9' or 'a'..'f'. *)
Definition isHexCode (c : Z) : Prop := 48 <= c <= 57 \/ 97 <= c <= 102.

(** The color of pixel [(px, py)] once the first [n] layers are drawn:
    the color of the last of these layers whose pattern has a block over
    the pixel, and the background color when there is none.  [img] gives
    the dimensions the blocks are clamped to. *)
Fixpoint composite (input : string) (o : options) (img : Image) (n : nat)
    (px py : Z) : color.RGBA :=
  match n with
  | O => bgColor o
  | S l =>
      let digest := layerDigest input l in
      match layerCells digest (gridSize o), avatarColor o digest (Z.of_nat l) with
      | Some cells, Some c =>
          if layerRegion img (gridSize o) (size o) cells px py then c
          else composite input o img l px py
      | _, _ => composite input o img l px py
      end
  end.

(** The color of the grid cell [(x, y)] once the first [n] layers are
    drawn: the color of the last of these layers whose pattern has the
    cell on, and the background color when there is none. *)
Fixpoint cellColor (input : string) (o : options) (n : nat) (x y : Z) : color.RGBA :=
  match n with
  | O => bgColor o
  | S l =>
      let digest := layerDigest input l in
      match layerCells digest (gridSize o), avatarColor o digest (Z.of_nat l) with
      | Some cells, Some c =>
          if cellOn cells x y then c else cellColor input o l x y
      | _, _ => cellColor input o l x y
      end
  end.

(** * Proofs *)

(** ** The hash on known inputs *)

Example generateHash_empty :
  generateHash "" = "d41d8cd98f00b204e9800998ecf8427e"%string.
Proof. vm_compute. reflexivity. Qed.

Example generateHash_abc :
  generateHash "abc" = "900150983cd24fb0d6963f7d28e17f72"%string.
Proof. vm_compute. reflexivity. Qed.

Example generateHash_mail :
  generateHash "test@example.com" = "55502f40dc8b7c769880b10874abc9d0"%string.
Proof. vm_compute. reflexivity. Qed.

Example generateHash_55 :
  generateHash "aaaaaaaaaaaaaaaaaaaaaaaaaaaaaaaaaaaaaaaaaaaaaaaaaaaaaaa"
  = "ef1772b6dff9a122358552954ad0df65"%string.
Proof. vm_compute. reflexivity. Qed.

Example generateHash_56 :
  generateHash "aaaaaaaaaaaaaaaaaaaaaaaaaaaaaaaaaaaaaaaaaaaaaaaaaaaaaaaa"
  = "3b0c8ac703f828b04c6c197006d17218"%string.
Proof. vm_compute. reflexivity. Qed.

Example generateHash_rehash :
  generateHash (generateHash "") = "74be16979710d4c4e7c6647856088456"%string.
Proof. vm_compute. reflexivity. Qed.

(** ** Basic facts: loops, strings, hashes *)

#[global] Arguments byteAt : simpl never.

(** Case analysis on the three hash bytes a color is made of; the cases
    with a missing byte are closed. *)
Ltac destruct_hash_bytes h :=
  destruct (byteAt h 0); [|done];
  destruct (byteAt h 1); [|done];
  destruct (byteAt h 2); [|done].

Section ForEach.
Context {A S : Type}.
Implicit Types (body : A -> S -> option S) (l : list A) (s : S).

Lemma forEach_app body l1 l2 s :
  forEach body (l1 ++ l2) s = forEach body l1 s ≫= forEach body l2.
Proof.
  revert s. induction l1 as [|a l1 IH]; intros s; simpl; [done|].
  destruct (body a s) as [s'|]; simpl; [apply IH | done].
Qed.

Lemma forEach_snoc body l a s :
  forEach body (l ++ [a]) s = forEach body l s ≫= body a.
Proof.
  rewrite forEach_app. destruct (forEach body l s) as [s'|]; simpl; [|done].
  by destruct (body a s').
Qed.

End ForEach.

Lemma get_lt (s : string) (n : nat) :
  (n < String.length s)%nat -> exists c, String.get n s = Some c.
Proof.
  revert n. induction s as [|a s IH]; intros n Hn; simpl in *; [lia|].
  destruct n as [|n]; [by eexists|]. apply IH. lia.
Qed.

Lemma get_ge (s : string) (n : nat) :
  (String.length s <= n)%nat -> String.get n s = None.
Proof.
  revert n. induction s as [|a s IH]; intros n Hn; simpl in *; [by destruct n|].
  destruct n as [|n]; [lia|]. apply IH. lia.
Qed.

Lemma byteAt_in_range (s : string) (i : Z) :
  0 <= i < Z.of_nat (String.length s) -> exists b, byteAt s i = Some b.
Proof.
  intros Hi. unfold byteAt.
  destruct (Z.ltb_spec i 0) as [?|_]; [lia|].
  destruct (get_lt s (Z.to_nat i)) as [c Hc]; [lia|].
  rewrite Hc. by eexists.
Qed.

Lemma byteAt_out_of_range (s : string) (i : Z) :
  i < 0 \/ Z.of_nat (String.length s) <= i -> byteAt s i = None.
Proof.
  intros Hi. unfold byteAt.
  destruct (Z.ltb_spec i 0) as [?|?]; [done|].
  rewrite get_ge; [done | lia].
Qed.

Lemma EncodeToString_length (bs : list Z) :
  String.length (EncodeToString bs) = (2 * length bs)%nat.
Proof. induction bs as [|b bs IH]; simpl; [done | rewrite IH; lia]. Qed.

Lemma Sum_length (data : list Z) : length (MD5.Sum data) = 16%nat.
Proof.
  unfold MD5.Sum.
  by destruct (MD5.blocks _ _ _) as [[[a b] c] d].
Qed.

(** The hash is always 32 characters long. *)
Lemma generateHash_length (data : string) :
  String.length (generateHash data) = 32%nat.
Proof. unfold generateHash. by rewrite EncodeToString_length, Sum_length. Qed.

(** A hash of three characters or more yields a color. *)
Lemma hashColor_long (h : string) :
  (3 <= String.length h)%nat -> is_Some (hashColor h).
Proof.
  intros Hlen. unfold hashColor.
  destruct (byteAt_in_range h 0) as [b0 ->]; [lia|].
  destruct (byteAt_in_range h 1) as [b1 ->]; [lia|].
  destruct (byteAt_in_range h 2) as [b2 ->]; [lia|].
  by eexists.
Qed.

Section ForEachActions.
Context {A S C : Type} (act : S -> C -> S).

(** A loop whose rounds each perform a list of actions performs them
    all, round after round. *)
Lemma forEach_actions (cellsOf : A -> list C) (body : A -> S -> option S) l s :
  (forall a s', a ∈ l -> body a s' = Some (foldl act s' (cellsOf a))) ->
  forEach body l s = Some (foldl act s (l ≫= cellsOf)).
Proof.
  revert s. induction l as [|a l IH]; intros s Hb; [done|].
  cbn [forEach]. rewrite Hb by left. cbn.
  rewrite IH by (intros b s' Hin; apply Hb; by right).
  by rewrite foldl_app.
Qed.

(** A loop with a round that panics whatever the state panics, when the
    rounds before it complete. *)
Lemma forEach_panics (cellsOf : A -> list C) (body : A -> S -> option S) l1 a l2 s :
  (forall a' s', a' ∈ l1 -> body a' s' = Some (foldl act s' (cellsOf a'))) ->
  (forall s', body a s' = None) ->
  forEach body (l1 ++ a :: l2) s = None.
Proof.
  intros H1 Ha. rewrite forEach_app, (forEach_actions cellsOf) by done.
  cbn. by rewrite Ha.
Qed.
End ForEachActions.

Lemma bitOf_testbit (b x : Z) : 0 <= x -> bitOf b x = Z.testbit b (x mod 8).
Proof.
  intros Hx. unfold bitOf. rewrite Z.rem_mod_nonneg by lia.
  assert (0 <= x mod 8) as Hk by (apply Z.mod_pos_bound; lia).
  change 1 with (Z.ones 1) at 1. rewrite Z.land_ones by lia.
  change (2 ^ 1) with 2. rewrite <- Z.bit0_mod, Z.shiftr_spec by lia.
  rewrite Z.add_0_l. by destruct (Z.testbit b (x mod 8)).
Qed.

Section LayerPassFacts.
Context {S : Type} (draw : Z -> Z -> S -> S).
Variables (h : string) (g : Z) (isOdd : bool).

Let act (s : S) (c : Z * Z) : S := draw c.1 c.2 s.

Lemma pixelOn_byte x y b : byteAt h y = Some b -> pixelOn h x y = Some (bitOf b x).
Proof. intros Hb. unfold pixelOn. by rewrite Hb. Qed.

Lemma layerRow_byte y b s :
  byteAt h y = Some b ->
  layerRow draw h g isOdd y s = Some (foldl act s (rowCells b g isOdd y)).
Proof.
  intros Hb. unfold layerRow, forRange, rowCells.
  rewrite Z.sub_0_r.
  rewrite (forEach_actions act
             (fun x => if bitOf b x then [(x, y); (g - 1 - x, y)] else [])).
  - cbn. rewrite (pixelOn_byte _ _ _ Hb), foldl_app.
    destruct isOdd; cbn; [|done]. by destruct (bitOf b (g `quot` 2)).
  - intros x s' _. rewrite (pixelOn_byte _ _ _ Hb). cbn.
    by destruct (bitOf b x).
Qed.

(** A row whose hash byte is missing panics, as soon as the row reads a
    bit at all. *)
Lemma layerRow_no_byte y s :
  byteAt h y = None -> 0 < g `quot` 2 \/ isOdd = true ->
  layerRow draw h g isOdd y s = None.
Proof.
  intros Hb Hread. unfold layerRow, forRange.
  assert (forall x, pixelOn h x y = None) as Hoff
    by (intros x; unfold pixelOn; by rewrite Hb).
  destruct (Z.ltb_spec 0 (g `quot` 2)) as [Hpos|Hnpos].
  - rewrite seqZ_cons by lia. cbn. rewrite (Hoff 0). reflexivity.
  - destruct Hread as [?| ->]; [lia|].
    replace (seqZ 0 (g `quot` 2 - 0)) with (@nil Z).
    + cbn. rewrite Hoff. reflexivity.
    + unfold seqZ. by replace (Z.to_nat (g `quot` 2 - 0)) with 0%nat by lia.
Qed.

Lemma layerPass_bytes s :
  (forall y, 0 <= y < g -> is_Some (byteAt h y)) ->
  layerPass draw h g isOdd s = Some (foldl act s (gridCells h g isOdd)).
Proof.
  intros Hbytes. unfold layerPass, forRange, gridCells.
  rewrite Z.sub_0_r.
  apply (forEach_actions act (fun y => rowCells (rowByte h y) g isOdd y)).
  intros y s' [Hy0 Hy]%elem_of_seqZ.
  destruct (Hbytes y) as [b Hb]; [lia|].
  unfold rowByte. rewrite Hb. by apply layerRow_byte.
Qed.
End LayerPassFacts.

Lemma foldl_record_cells (acc cs : list (Z * Z)) :
  foldl (fun s c => s ++ [(c.1, c.2)]) acc cs = acc ++ cs.
Proof.
  revert acc. induction cs as [|[x y] cs IH]; intros acc; cbn.
  - by rewrite app_nil_r.
  - rewrite IH. by rewrite <- app_assoc.
Qed.

(** A pass completes exactly when every row has its hash byte. *)
Lemma layerPass_short {S : Type} (draw : Z -> Z -> S -> S) (h : string) (g : Z) (s : S) :
  Z.of_nat (String.length h) < g ->
  layerPass draw h g (negb (g `rem` 2 =? 0)) s = None.
Proof.
  intros Hlen. unfold layerPass, forRange. rewrite Z.sub_0_r.
  set (n := Z.of_nat (String.length h)) in *.
  assert (0 <= n) as Hn by lia.
  replace (seqZ 0 g) with (seqZ 0 (n + (g - n))) by (f_equal; lia).
  rewrite seqZ_app, (seqZ_cons (0 + n)) by lia.
  apply (forEach_panics (fun s c => draw c.1 c.2 s)
           (fun y => rowCells (rowByte h y) g (negb (g `rem` 2 =? 0)) y)).
  - intros y s' [Hy0 Hy]%elem_of_seqZ.
    destruct (byteAt_in_range h y) as [b Hb]; [lia|].
    unfold rowByte. rewrite Hb. by apply layerRow_byte.
  - intros s'. apply layerRow_no_byte.
    + apply byteAt_out_of_range. lia.
    + destruct (Z.eqb_spec (g `rem` 2) 0) as [Hev|Hodd]; [left|by right].
      pose proof (Z.quot_rem' g 2). lia.
Qed.

Lemma layerCells_Some (h : string) (g : Z) :
  g <= Z.of_nat (String.length h) ->
  layerCells h g = Some (gridCells h g (negb (g `rem` 2 =? 0))).
Proof.
  intros Hg. unfold layerCells.
  rewrite layerPass_bytes.
  - by rewrite foldl_record_cells.
  - intros y Hy. destruct (byteAt_in_range h y) as [b Hb]; [lia|]. by eexists.
Qed.

Lemma layerCells_None (h : string) (g : Z) :
  Z.of_nat (String.length h) < g -> layerCells h g = None.
Proof. apply layerPass_short. Qed.

Lemma layerCells_inv (h : string) (g : Z) (cells : list (Z * Z)) :
  layerCells h g = Some cells ->
  g <= Z.of_nat (String.length h) /\ cells = gridCells h g (negb (g `rem` 2 =? 0)).
Proof.
  intros Hc. destruct (Z.le_gt_cases g (Z.of_nat (String.length h))) as [Hle|Hgt].
  - rewrite layerCells_Some in Hc by done. split; [done | congruence].
  - rewrite layerCells_None in Hc by done. discriminate.
Qed.

(** The pass of [Make] draws the cells of the pattern, in order. *)
Lemma layerPass_cells {S : Type} (draw : Z -> Z -> S -> S) (h : string) (g : Z)
    (cells : list (Z * Z)) (s : S) :
  layerCells h g = Some cells ->
  layerPass draw h g (negb (g `rem` 2 =? 0)) s
  = Some (foldl (fun s c => draw c.1 c.2 s) s cells).
Proof.
  intros [Hg ->]%layerCells_inv. apply layerPass_bytes.
  intros y Hy. destruct (byteAt_in_range h y) as [b Hb]; [lia|]. by eexists.
Qed.

Lemma elem_of_rowCells (b g : Z) (isOdd : bool) (y c r : Z) :
  (c, r) ∈ rowCells b g isOdd y <->
  r = y /\
  ((0 <= c < g `quot` 2 /\ bitOf b c = true)
   \/ (exists x, 0 <= x < g `quot` 2 /\ c = g - 1 - x /\ bitOf b x = true)
   \/ (isOdd = true /\ c = g `quot` 2 /\ bitOf b (g `quot` 2) = true)).
Proof.
  unfold rowCells. rewrite elem_of_app, list_elem_of_bind. split.
  - intros [(x & Hin & Hx%elem_of_seqZ)|Hmid].
    + destruct (bitOf b x) eqn:Hbit; [|by apply elem_of_nil in Hin].
      apply elem_of_cons in Hin as [[= -> ->]|Hin].
      * split; [done|]. left. split; [lia | done].
      * apply list_elem_of_singleton in Hin as [= -> ->].
        split; [done|]. right; left. exists x. split; [lia | done].
    + destruct isOdd; [|by apply elem_of_nil in Hmid]. cbn in Hmid.
      destruct (bitOf b (g `quot` 2)) eqn:Hbit; [|by apply elem_of_nil in Hmid].
      apply list_elem_of_singleton in Hmid as [= -> ->].
      split; [done|]. by right; right.
  - intros [-> [[Hc Hbit]|[(x & Hx & -> & Hbit)|(-> & -> & Hbit)]]].
    + left. exists c. rewrite Hbit, elem_of_seqZ. split; [by left | lia].
    + left. exists x. rewrite Hbit, elem_of_seqZ. split; [by right; left | lia].
    + right. rewrite Hbit. cbn. by left.
Qed.

Lemma elem_of_gridCells (h : string) (g : Z) (isOdd : bool) (c r : Z) :
  (c, r) ∈ gridCells h g isOdd <->
  0 <= r < g /\ (c, r) ∈ rowCells (rowByte h r) g isOdd r.
Proof.
  unfold gridCells. rewrite list_elem_of_bind. split.
  - intros (y & Hin & Hy%elem_of_seqZ).
    pose proof Hin as [-> _]%elem_of_rowCells. split; [lia | done].
  - intros [Hr Hin]. exists r. split; [done|]. apply elem_of_seqZ. lia.
Qed.

Section GridCellsFacts.
Variables (h : string) (g : Z).
Let isOdd : bool := negb (g `rem` 2 =? 0).

Lemma gridCells_left (c r : Z) :
  0 <= r < g -> 0 <= c < g `quot` 2 ->
  (c, r) ∈ gridCells h g isOdd <-> bitOf (rowByte h r) c = true.
Proof.
  intros Hr Hc. rewrite elem_of_gridCells, elem_of_rowCells.
  pose proof (Z.quot_rem' g 2) as Hg. pose proof (Z.rem_bound_pos g 2) as Hrem.
  split.
  - intros [_ [_ [[_ Hbit]|[(x & Hx & Heq & _)|(_ & Heq & _)]]]]; [done | lia | lia].
  - intros Hbit. split; [done|]. split; [done|]. by left.
Qed.

Lemma gridCells_right (c r : Z) :
  0 <= r < g -> 0 <= c < g `quot` 2 ->
  (g - 1 - c, r) ∈ gridCells h g isOdd <-> bitOf (rowByte h r) c = true.
Proof.
  intros Hr Hc. rewrite elem_of_gridCells, elem_of_rowCells.
  pose proof (Z.quot_rem' g 2) as Hg. pose proof (Z.rem_bound_pos g 2) as Hrem.
  split.
  - intros [_ [_ [[Hlt _]|[(x & Hx & Heq & Hbit)|(Hodd & Heq & _)]]]]; [lia | | ].
    + by replace c with x by lia.
    + subst isOdd. destruct (Z.eqb_spec (g `rem` 2) 0); [done | lia].
  - intros Hbit. split; [done|]. split; [done|]. right; left. by exists c.
Qed.

Lemma gridCells_mid (r : Z) :
  0 <= r < g -> g `rem` 2 <> 0 ->
  (g `quot` 2, r) ∈ gridCells h g isOdd <-> bitOf (rowByte h r) (g `quot` 2) = true.
Proof.
  intros Hr Hodd. rewrite elem_of_gridCells, elem_of_rowCells.
  pose proof (Z.quot_rem' g 2) as Hg. pose proof (Z.rem_bound_pos g 2) as Hrem.
  split.
  - intros [_ [_ [[Hlt _]|[(x & Hx & Heq & _)|(_ & _ & Hbit)]]]]; [lia | lia | done].
  - intros Hbit. split; [done|]. split; [done|]. right; right.
    split; [|done]. subst isOdd. by destruct (Z.eqb_spec (g `rem` 2) 0).
Qed.

(** Every cell of the pattern lies in the grid. *)
Lemma gridCells_in_grid (c r : Z) :
  (c, r) ∈ gridCells h g isOdd -> 0 <= c < g /\ 0 <= r < g.
Proof.
  rewrite elem_of_gridCells, elem_of_rowCells.
  intros [Hr [_ Hc]]. split; [|done].
  pose proof (Z.quot_rem' g 2) as Hg. pose proof (Z.rem_bound_pos g 2) as Hrem.
  destruct Hc as [[Hc _]|[(x & Hx & -> & _)|(_ & -> & _)]]; lia.
Qed.
End GridCellsFacts.

Lemma layerDigest_length (input : string) (l : nat) :
  String.length (layerDigest input l) = 32%nat.
Proof. destruct l; apply generateHash_length. Qed.

Lemma cellOn_iff (cells : list (Z * Z)) (x y : Z) (b : bool) :
  ((x, y) ∈ cells <-> b = true) -> cellOn cells x y = b.
Proof.
  intros Hiff. unfold cellOn. destruct b.
  - apply bool_decide_eq_true. by apply Hiff.
  - apply bool_decide_eq_false. intros Hin. by apply Hiff in Hin.
Qed.

(** C2. In every layer, for every row y and every left-half column x,
    the cell (x, y) is on exactly when bit (x mod 8) of byte y of the
    layer's digest is 1, and then the mirror column gridSize-1-x is on
    in that row too; for an odd grid the center column gridSize/2 is on
    exactly when bit ((gridSize/2) mod 8) of that byte is 1.  The pattern
    exists for every grid of at most 32 rows, the length of a digest. *)
Theorem pattern_follows_digest_bits (input : string) (l : nat) (gridSize : Z) :
  gridSize <= 32 ->
  exists cells,
    layerCells (layerDigest input l) gridSize = Some cells /\
    followsBits (layerDigest input l) gridSize cells.
Proof.
  intros Hg. set (digest := layerDigest input l).
  assert (Z.of_nat (String.length digest) = 32) as Hlen
    by (unfold digest; rewrite layerDigest_length; lia).
  exists (gridCells digest gridSize (negb (gridSize `rem` 2 =? 0))).
  split; [apply layerCells_Some; lia|].
  intros y Hy. destruct (byteAt_in_range digest y) as [b Hb]; [lia|].
  exists b. split; [done|].
  assert (rowByte digest y = b) as Hrow by (unfold rowByte; by rewrite Hb).
  assert (gridSize `quot` 2 = gridSize / 2) as Hq by (apply Z.quot_div_nonneg; lia).
  split.
  - intros x Hx. rewrite <- bitOf_testbit by lia. rewrite <- Hrow. split.
    + apply cellOn_iff, gridCells_left; lia.
    + unfold cellOn. rewrite !bool_decide_eq_true.
      rewrite gridCells_left, gridCells_right by lia. done.
  - intros Hodd. rewrite <- bitOf_testbit by (apply Z.div_pos; lia).
    rewrite <- Hrow, <- Hq. apply cellOn_iff, gridCells_mid; [lia|].
    rewrite Z.rem_mod_nonneg by lia. rewrite Zodd_mod in Hodd.
    destruct (Z.eqb_spec (gridSize mod 2) 1); [lia | done].
Qed.

Lemma pattern_follows_digest_bits_witness :
  8 <= 32 /\
  exists cells,
    layerCells (layerDigest "test@example.com" 0) 8 = Some cells /\
    followsBits (layerDigest "test@example.com" 0) 8 cells.
Proof.
  split; [lia|]. apply (pattern_follows_digest_bits "test@example.com" 0 8). lia.
Defined.

(** C3. Whatever the digest and the grid size, the pattern of a layer is
    left-right symmetric: column x is on in row y exactly when column
    gridSize-1-x is. *)
Theorem pattern_is_symmetric (digest : string) (gridSize : Z) (cells : list (Z * Z)) :
  layerCells digest gridSize = Some cells ->
  symmetric gridSize cells.
Proof.
  intros [Hg ->]%layerCells_inv x y Hx Hy.
  set (b := rowByte digest y).
  pose proof (Z.quot_rem' gridSize 2) as Hqr.
  pose proof (Z.rem_bound_pos gridSize 2) as Hrem.
  destruct (Z.lt_ge_cases x (gridSize `quot` 2)) as [Hleft|Hnleft].
  - rewrite (cellOn_iff _ x y (bitOf b x)) by (apply gridCells_left; lia).
    symmetry. apply cellOn_iff, gridCells_right; lia.
  - destruct (Z.lt_ge_cases (gridSize - 1 - x) (gridSize `quot` 2)) as [Hright|Hmid].
    + set (x' := gridSize - 1 - x) in *.
      replace x with (gridSize - 1 - x') by lia.
      rewrite (cellOn_iff _ (gridSize - 1 - x') y (bitOf b x'))
        by (apply gridCells_right; lia).
      symmetry. apply cellOn_iff, gridCells_left; lia.
    + by replace (gridSize - 1 - x) with x by lia.
Qed.

Lemma pattern_is_symmetric_witness :
  exists cells,
    layerCells (generateHash "test@example.com") 8 = Some cells /\
    symmetric 8 cells.
Proof.
  destruct (layerCells (generateHash "test@example.com") 8) as [cells|] eqn:Hc;
    [|vm_compute in Hc; discriminate].
  exists cells. split; [reflexivity|].
  exact (pattern_is_symmetric (generateHash "test@example.com") 8 cells Hc).
Defined.

Lemma bool_eq_iff (b1 b2 : bool) : (b1 = true <-> b2 = true) -> b1 = b2.
Proof. destruct b1, b2; intuition congruence. Qed.

Lemma inBounds_spec (img : Image) (x y : Z) :
  inBounds img x y = true <-> 0 <= x < Dx img /\ 0 <= y < Dy img.
Proof. unfold inBounds. rewrite !andb_true_iff. lia. Qed.

Lemma inBounds_dims (img img' : Image) (x y : Z) :
  Dx img' = Dx img -> Dy img' = Dy img -> inBounds img' x y = inBounds img x y.
Proof. unfold inBounds. by intros -> ->. Qed.

Lemma NewRGBA_wf (w h : Z) (img : Image) :
  NewRGBA w h = Some img -> wfImage img /\ Dx img = w /\ Dy img = h.
Proof.
  unfold NewRGBA, mul3NonNeg.
  destruct (Z.ltb_spec w 0), (Z.ltb_spec h 0); cbn; try discriminate.
  repeat case_match; try discriminate.
  intros [= <-]. unfold wfImage. cbn. rewrite length_replicate. repeat split; lia.
Qed.

Lemma fillUniform_wf (img : Image) (c : color.RGBA) :
  wfImage img -> wfImage (fillUniform img c).
Proof.
  intros (? & ? & Hlen). unfold wfImage, fillUniform. cbn.
  rewrite length_replicate. auto.
Qed.

Lemma At_fillUniform (img : Image) (c : color.RGBA) (px py : Z) :
  wfImage img -> inBounds img px py = true -> At (fillUniform img c) px py = c.
Proof.
  intros (HDx & HDy & Hlen) Hin. unfold At.
  rewrite (inBounds_dims img) by done. rewrite Hin.
  apply inBounds_spec in Hin. unfold fillUniform, PixOffset. cbn.
  rewrite lookup_replicate_2; [done|]. rewrite Hlen. nia.
Qed.

Lemma painted_none (img : Image) (c : color.RGBA) :
  wfImage img -> painted img img (fun _ _ => false) c.
Proof.
  intros Hwf. repeat split; try done; try apply Hwf.
  intros px py. by rewrite andb_false_r.
Qed.

Lemma painted_Set (img : Image) (x y : Z) (c : color.RGBA) :
  wfImage img ->
  painted img (Set_ img x y c) (fun px py => (px =? x) && (py =? y)) c.
Proof.
  intros (HDx & HDy & Hlen). unfold Set_.
  destruct (inBounds img x y) eqn:Hxy.
  - repeat split; cbn; try done.
    + by rewrite length_insert.
    + intros px py. unfold At.
      rewrite (inBounds_dims img) by done.
      destruct (inBounds img px py) eqn:Hp; [|done].
      apply inBounds_spec in Hxy, Hp. unfold PixOffset. cbn.
      destruct (Z.eqb_spec px x) as [->|Hx], (Z.eqb_spec py y) as [->|Hy]; cbn.
      * rewrite list_lookup_insert_eq; [done|]. rewrite Hlen. nia.
      * rewrite list_lookup_insert_ne; [done|]. nia.
      * rewrite list_lookup_insert_ne; [done|]. nia.
      * rewrite list_lookup_insert_ne; [done|]. nia.
  - repeat split; try done.
    intros px py. destruct (inBounds img px py) eqn:Hp; [|done].
    destruct (Z.eqb_spec px x) as [->|Hx], (Z.eqb_spec py y) as [->|Hy]; cbn;
      congruence.
Qed.

Lemma painted_then (img img' img'' : Image) (P Q : Z -> Z -> bool) (c : color.RGBA) :
  painted img img' P c -> painted img' img'' Q c ->
  painted img img'' (fun px py => P px py || Q px py) c.
Proof.
  intros (HDx & HDy & Hwf & HP) (HDx' & HDy' & Hwf' & HQ).
  repeat split; try apply Hwf'; try congruence.
  intros px py. rewrite HQ, HP, (inBounds_dims img img') by done.
  by destruct (inBounds img px py), (P px py), (Q px py).
Qed.

Lemma painted_ext (img img' : Image) (P Q : Z -> Z -> bool) (c : color.RGBA) :
  (forall px py, P px py = Q px py) -> painted img img' P c -> painted img img' Q c.
Proof.
  intros Heq (HDx & HDy & Hwf & HP). repeat split; try apply Hwf; try done.
  intros px py. by rewrite <- Heq.
Qed.

(** Painting one region after the other, all with the same color, paints
    their union. *)
Lemma painted_foldl {A : Type} (f : Image -> A -> Image) (R : A -> Z -> Z -> bool)
    (c : color.RGBA) (w h : Z) :
  (forall img a, wfImage img -> Dx img = w -> Dy img = h -> painted img (f img a) (R a) c) ->
  forall l img, wfImage img -> Dx img = w -> Dy img = h ->
    painted img (foldl f img l) (fun px py => existsb (fun a => R a px py) l) c.
Proof.
  intros Hf l. induction l as [|a l IH]; intros img Hwf Hw Hh; cbn.
  - by apply painted_none.
  - pose proof (Hf img a Hwf Hw Hh) as Ha.
    eapply painted_then; [exact Ha|].
    destruct Ha as (HDx & HDy & Hwf' & _).
    apply IH; [done | congruence | congruence].
Qed.

Lemma existsb_seqZ (f : Z -> bool) (m n : Z) :
  existsb f (seqZ m n) = true <-> exists k, m <= k < m + n /\ f k = true.
Proof.
  rewrite existsb_exists. split.
  - intros (k & Hin%list_elem_of_In%elem_of_seqZ & Hk). eauto.
  - intros (k & Hin & Hk). exists k. split; [|done].
    by apply list_elem_of_In, elem_of_seqZ.
Qed.

(** [drawPixel] sets the pixels of the cell's block, and nothing else. *)
Lemma painted_drawPixel (img : Image) (gridX gridY : Z) (c : color.RGBA)
    (gridSize imageSize : Z) :
  wfImage img ->
  painted img (drawPixel img gridX gridY c gridSize imageSize)
    (inRect (cellRect img gridX gridY gridSize imageSize)) c.
Proof.
  intros Hwf. unfold drawPixel.
  destruct (cellRect img gridX gridY gridSize imageSize)
    as [[[startX startY] endX] endY] eqn:Hrect.
  eapply painted_ext; [|apply (painted_foldl _
     (fun y px py => (startX <=? px) && (px <? endX) && (py =? y)) c (Dx img) (Dy img));
     [|done..]].
  - intros px py. cbn. apply bool_eq_iff. rewrite existsb_seqZ. split.
    + intros (y & Hy & Hp). rewrite !andb_true_iff in *.
      destruct Hp as [[? ?] ->%Z.eqb_eq]. lia.
    + rewrite !andb_true_iff. intros [[[? ?] ?] ?]. exists py.
      split; [lia|]. rewrite !andb_true_iff, Z.eqb_eq. done.
  - intros img0 y Hwf0 Hw Hh.
    eapply painted_ext; [|apply (painted_foldl _
       (fun x px py => (px =? x) && (py =? y)) c (Dx img0) (Dy img0));
       [|done..]].
    + intros px py. cbn. apply bool_eq_iff. rewrite existsb_seqZ. split.
      * intros (x & Hx & Hp). rewrite !andb_true_iff in *.
        destruct Hp as [->%Z.eqb_eq ?]. split; [lia | done].
      * rewrite !andb_true_iff. intros [[? ?] ?]. exists px.
        split; [lia|]. rewrite !andb_true_iff, Z.eqb_eq. done.
    + intros img1 x Hwf1 _ _. by apply painted_Set.
Qed.

Lemma scaled_nonneg (k imageSize gridSize : Z) :
  0 <= k -> 0 <= imageSize -> 0 < gridSize ->
  scaled k imageSize gridSize = (2 * (k * imageSize) + gridSize) / (2 * gridSize).
Proof.
  intros Hk Hs Hg. unfold scaled, roundDiv.
  assert (0 <= k * imageSize) as Ha by nia.
  rewrite (Z.abs_eq (k * imageSize)), (Z.abs_eq gridSize), (Z.sgn_pos gridSize) by lia.
  rewrite Z.quot_div_nonneg by lia.
  destruct (Z.eq_dec (k * imageSize) 0) as [->|Hne].
  - cbn. symmetry. apply Z.div_small. lia.
  - rewrite Z.sgn_pos by lia. lia.
Qed.


Lemma scaled_zero (imageSize gridSize : Z) : scaled 0 imageSize gridSize = 0.
Proof. reflexivity. Qed.

Lemma scaled_full (imageSize gridSize : Z) :
  0 <= imageSize -> 0 < gridSize -> scaled gridSize imageSize gridSize = imageSize.
Proof.
  intros Hs Hg. rewrite scaled_nonneg by lia.
  replace (2 * (gridSize * imageSize) + gridSize)
    with (gridSize + imageSize * (2 * gridSize)) by lia.
  rewrite Z.div_add by lia. rewrite Z.div_small by lia. lia.
Qed.

Lemma scaled_mono (k k' imageSize gridSize : Z) :
  0 <= k <= k' -> 0 <= imageSize -> 0 < gridSize ->
  scaled k imageSize gridSize <= scaled k' imageSize gridSize.
Proof.
  intros Hk Hs Hg. rewrite !scaled_nonneg by lia.
  apply Z.div_le_mono; [lia | nia].
Qed.


(** With a non-decreasing [b], the intervals do not overlap. *)
Lemma interval_unique (b : Z -> Z) (x x' p : Z) :
  (forall i j, 0 <= i <= j -> b i <= b j) ->
  0 <= x -> 0 <= x' ->
  b x <= p < b (x + 1) -> b x' <= p < b (x' + 1) -> x = x'.
Proof.
  intros Hmono Hx Hx' Hp Hp'.
  destruct (Z.lt_trichotomy x x') as [Hlt|[Heq|Hgt]]; [|done|].
  - pose proof (Hmono (x + 1) x'). lia.
  - pose proof (Hmono (x' + 1) x). lia.
Qed.

Lemma cellRect_inside (img : Image) (x y gridSize imageSize : Z) :
  0 < gridSize -> 0 < imageSize -> Dx img = imageSize -> Dy img = imageSize ->
  0 <= x < gridSize -> 0 <= y < gridSize ->
  cellRect img x y gridSize imageSize
  = (scaled x imageSize gridSize, scaled y imageSize gridSize,
     scaled (x + 1) imageSize gridSize, scaled (y + 1) imageSize gridSize).
Proof.
  intros Hg Hs HDx HDy Hx Hy. unfold cellRect. rewrite HDx, HDy.
  pose proof (scaled_mono (x + 1) gridSize imageSize gridSize) as Hex.
  pose proof (scaled_mono (y + 1) gridSize imageSize gridSize) as Hey.
  rewrite scaled_full in Hex, Hey by lia.
  destruct (Z.ltb_spec imageSize (scaled (x + 1) imageSize gridSize)); [lia|].
  destruct (Z.ltb_spec imageSize (scaled (y + 1) imageSize gridSize)); [lia|].
  done.
Qed.



(** ** The options *)

(** C8. An invalid override is a silent no-op that keeps the previous
    value and raises no error: [WithSize s] with s < 64 leaves the
    configuration unchanged, while s >= 64 (512, say) sets the size;
    [WithGridSize g] with g <= 8 leaves it unchanged, while g > 8 sets
    the grid size; [WithLayers n] with n outside [1,3] leaves it
    unchanged, while n in {1,2,3} sets the layer count. *)
Theorem invalid_overrides_are_ignored (o : options) :
  (forall s, s < 64 -> WithSize s o = Some o) /\
  (forall s, 64 <= s ->
     WithSize s o = Some (mkOptions s (gridSize o) (bgColor o) (fgColors o) (layers o))) /\
  WithSize 512 o = Some (mkOptions 512 (gridSize o) (bgColor o) (fgColors o) (layers o)) /\
  (forall g, g <= 8 -> WithGridSize g o = Some o) /\
  (forall g, 8 < g ->
     WithGridSize g o = Some (mkOptions (size o) g (bgColor o) (fgColors o) (layers o))) /\
  (forall n, n < 1 \/ 3 < n -> WithLayers n o = Some o) /\
  (forall n, 1 <= n <= 3 ->
     WithLayers n o = Some (mkOptions (size o) (gridSize o) (bgColor o) (fgColors o) n)).
Proof.
  repeat apply conj.
  - intros s Hs. unfold WithSize. by destruct (Z.leb_spec 64 s); [lia|].
  - intros s Hs. unfold WithSize. by destruct (Z.leb_spec 64 s); [|lia].
  - reflexivity.
  - intros g Hg. unfold WithGridSize. by destruct (Z.ltb_spec 8 g); [lia|].
  - intros g Hg. unfold WithGridSize. by destruct (Z.ltb_spec 8 g); [|lia].
  - intros n Hn. unfold WithLayers.
    by destruct (Z.leb_spec 1 n), (Z.leb_spec n 3); [lia|..].
  - intros n Hn. unfold WithLayers.
    by destruct (Z.leb_spec 1 n), (Z.leb_spec n 3); [|lia..].
Qed.

Lemma invalid_overrides_are_ignored_witness :
  WithSize 63 sampleOptions = Some sampleOptions /\
  size <$> WithSize 64 sampleOptions = Some 64 /\
  size <$> WithSize 512 sampleOptions = Some 512 /\
  WithGridSize 8 sampleOptions = Some sampleOptions /\
  gridSize <$> WithGridSize 10 sampleOptions = Some 10 /\
  WithLayers 0 sampleOptions = Some sampleOptions /\
  WithLayers 4 sampleOptions = Some sampleOptions /\
  layers <$> WithLayers 3 sampleOptions = Some 3.
Proof.
  destruct (invalid_overrides_are_ignored sampleOptions)
    as (Hs1 & Hs2 & Hs3 & Hg1 & Hg2 & Hn1 & Hn2).
  repeat apply conj.
  - apply Hs1. lia.
  - rewrite Hs2 by lia. reflexivity.
  - rewrite Hs3. reflexivity.
  - apply Hg1. lia.
  - rewrite Hg2 by lia. reflexivity.
  - apply Hn1. lia.
  - apply Hn1. lia.
  - rewrite Hn2 by lia. reflexivity.
Defined.

(** The expansion loop of [WithLayerColor] appends exactly the missing
    zero colors, and then its guard is false. *)
Lemma expandLoop_eq (fuel : nat) (fg : list color.RGBA) (layerIndex : Z) :
  fuel = Z.to_nat (layerIndex + 1 - Z.of_nat (length fg)) ->
  expandLoop fuel fg layerIndex = fg ++ replicate fuel color.zero.
Proof.
  revert fg. induction fuel as [|fuel IH]; intros fg Hfuel; cbn.
  - by rewrite app_nil_r.
  - destruct (Z.leb_spec (Z.of_nat (length fg)) layerIndex) as [_|Hlt]; [|lia].
    rewrite IH by (rewrite length_app; cbn; lia).
    by rewrite <- app_assoc.
Qed.

Lemma expand_eq (fg : list color.RGBA) (layerIndex : Z) :
  expand fg layerIndex
  = fg ++ replicate (Z.to_nat (layerIndex + 1 - Z.of_nat (length fg))) color.zero.
Proof. by apply expandLoop_eq. Qed.

Lemma expand_done (fg : list color.RGBA) (layerIndex : Z) :
  layerIndex < Z.of_nat (length (expand fg layerIndex)).
Proof. rewrite expand_eq, length_app, length_replicate. lia. Qed.

(** [WithLayerColor] panics on a negative index, and on no other. *)
Lemma WithLayerColor_negative (layerIndex r g b a : Z) (o : options) :
  layerIndex < 0 -> WithLayerColor layerIndex r g b a o = None.
Proof.
  intros Hneg. unfold WithLayerColor, setIndex.
  by destruct (Z.leb_spec 0 layerIndex); [lia|].
Qed.

Lemma WithLayerColor_nonneg (layerIndex r g b a : Z) (o : options) :
  0 <= layerIndex ->
  WithLayerColor layerIndex r g b a o
  = Some (mkOptions (size o) (gridSize o) (bgColor o)
            (<[Z.to_nat layerIndex := color.mk r g b a]> (expand (fgColors o) layerIndex))
            (layers o)).
Proof.
  intros Hpos. unfold WithLayerColor, setIndex.
  pose proof (expand_done (fgColors o) layerIndex).
  destruct (Z.leb_spec 0 layerIndex); [|lia].
  by destruct (Z.ltb_spec layerIndex (Z.of_nat (length (expand (fgColors o) layerIndex)))); [|lia].
Qed.

(** C9. [WithLayerColor(2, 0,0,255,255)] on a configuration whose color
    list has length 1 yields a list of length 3: index 0 is unchanged,
    index 1 is the all-zero unset color, index 2 is (0,0,255,255). *)
Theorem layer_color_grows_list (o : options) (c0 : color.RGBA) :
  fgColors o = [c0] ->
  exists o',
    WithLayerColor 2 0 0 255 255 o = Some o' /\
    fgColors o' = [c0; color.zero; color.mk 0 0 255 255] /\
    length (fgColors o') = 3%nat /\
    fgColors o' !! 0%nat = Some c0 /\
    fgColors o' !! 1%nat = Some color.zero /\
    fgColors o' !! 2%nat = Some (color.mk 0 0 255 255) /\
    (size o', gridSize o', bgColor o', layers o')
    = (size o, gridSize o, bgColor o, layers o).
Proof.
  intros Hfg. eexists. split.
  - unfold WithLayerColor. rewrite Hfg. reflexivity.
  - cbn. by repeat split.
Qed.

Lemma layer_color_grows_list_witness :
  exists o',
    WithLayerColor 2 0 0 255 255 sampleOptions = Some o' /\
    fgColors o' = [color.mk 53 53 53 255; color.zero; color.mk 0 0 255 255].
Proof.
  destruct (layer_color_grows_list sampleOptions (color.mk 53 53 53 255) eq_refl)
    as (o' & Ho' & Hfg & _).
  exists o'. by split.
Defined.

(** C10. [WithFgColor(r,g,b,a)] replaces the whole color list by the
    one-element list [(r,g,b,a)], whatever its length was: colors set
    before for the layers 1 and above are gone, and in a later render
    those layers take their digest-derived color. *)
Theorem WithFgColor_resets_layer_colors (o : options) (r g b a : Z) :
  exists o',
    WithFgColor r g b a o = Some o' /\
    fgColors o' = [color.mk r g b a] /\
    (size o', gridSize o', bgColor o', layers o')
    = (size o, gridSize o, bgColor o, layers o) /\
    forall (l : Z) (digest : string), 1 <= l ->
      avatarColor o' digest l = hashColor digest.
Proof.
  eexists. split; [reflexivity|]. cbn. repeat split.
  intros l digest Hl. unfold avatarColor. cbn.
  change (Z.of_nat 1) with 1.
  by destruct (Z.ltb_spec l 1); [lia|].
Qed.

Lemma WithFgColor_resets_layer_colors_witness :
  exists o',
    WithFgColor 255 255 255 255
      (mkOptions 64 8 (color.mk 240 240 240 255)
         [color.mk 255 0 0 255; color.mk 0 255 0 255; color.mk 0 0 255 255] 3)
    = Some o' /\
    fgColors o' = [color.mk 255 255 255 255] /\
    avatarColor o' (generateHash "a") 1 = hashColor (generateHash "a") /\
    avatarColor o' (generateHash "a") 2 = hashColor (generateHash "a").
Proof.
  destruct (WithFgColor_resets_layer_colors
              (mkOptions 64 8 (color.mk 240 240 240 255)
                 [color.mk 255 0 0 255; color.mk 0 255 0 255; color.mk 0 0 255 255] 3)
              255 255 255 255)
    as (o' & Ho' & Hfg & _ & Hlater).
  exists o'. repeat split; [done | done | apply Hlater; lia | apply Hlater; lia].
Defined.

Lemma Make_layersOf (input : string) (opts : list OptFunc) :
  Make input opts =
  o ← resolveOptions (generateHash input) opts;
  st ← layersOf input o (layers o);
  Some st.2.
Proof.
  unfold Make, layersOf, blankImage.
  destruct (resolveOptions _ _) as [o|]; cbn; [|done].
  by destruct (NewRGBA _ _).
Qed.

Lemma blankImage_wf (o : options) (bg : Image) :
  blankImage o = Some bg ->
  wfImage bg /\ Dx bg = size o /\ Dy bg = size o /\
  forall px py, inBounds bg px py = true -> At bg px py = bgColor o.
Proof.
  unfold blankImage. destruct (NewRGBA _ _) as [img|] eqn:Hnew; [|done].
  intros [= <-]. apply NewRGBA_wf in Hnew as (Hwf & HDx & HDy).
  repeat split; try done; try by apply fillUniform_wf.
  intros px py Hin. by apply At_fillUniform.
Qed.

Section LayerLoop.
Variables (o : options) (isOdd : bool).

Lemma runLayers_0 (st : string * Image) : runLayers o isOdd 0 st = Some st.
Proof. reflexivity. Qed.

Lemma runLayers_1 (st : string * Image) :
  runLayers o isOdd 1 st = layerStep o isOdd 0 st.
Proof.
  unfold runLayers, forRange. change (seqZ 0 (1 - 0)) with [0]. cbn [forEach].
  by destruct (layerStep o isOdd 0 st).
Qed.

Lemma runLayers_2 (st : string * Image) :
  runLayers o isOdd 2 st = layerStep o isOdd 0 st ≫= layerStep o isOdd 1.
Proof.
  unfold runLayers, forRange. change (seqZ 0 (2 - 0)) with [0; 1]. cbn [forEach].
  destruct (layerStep o isOdd 0 st) as [st0|]; [|done]. cbn.
  by destruct (layerStep o isOdd 1 st0).
Qed.

Lemma runLayers_S (n : nat) (st : string * Image) :
  runLayers o isOdd (Z.of_nat n + 1) st
  = runLayers o isOdd (Z.of_nat n) st ≫= layerStep o isOdd (Z.of_nat n).
Proof.
  unfold runLayers, forRange. rewrite !Z.sub_0_r.
  replace (Z.of_nat n + 1) with (Z.of_nat (S n)) by lia.
  by rewrite seqZ_S, forEach_snoc.
Qed.

(** When the loop completes [n] rounds it completes any smaller number. *)
Lemma runLayers_prefix (m n : nat) (st st' : string * Image) :
  (m <= n)%nat -> runLayers o isOdd (Z.of_nat n) st = Some st' ->
  is_Some (runLayers o isOdd (Z.of_nat m) st).
Proof.
  intros Hmn. revert st'. induction Hmn as [|n Hmn IH]; intros st' Hn; [by eexists|].
  replace (Z.of_nat (S n)) with (Z.of_nat n + 1) in Hn by lia.
  rewrite runLayers_S in Hn.
  destruct (runLayers o isOdd (Z.of_nat n) st) as [st''|] eqn:Hrun; [|done].
  by eapply IH.
Qed.

Lemma layerStep_hash (l : Z) (st st' : string * Image) :
  layerStep o isOdd l st = Some st' ->
  st'.1 = if 0 <? l then generateHash st.1 else st.1.
Proof.
  unfold layerStep. destruct (avatarColor _ _ _) as [c|]; cbn; [|done].
  destruct (layerPass _ _ _ _ _) as [img|]; cbn; [|done].
  by intros [= <-].
Qed.

(** After [n] rounds the current hash is the digest of the last layer
    drawn (of layer 0 before the first round). *)
Lemma runLayers_hash (input : string) (img0 : Image) (n : nat) (st : string * Image) :
  runLayers o isOdd (Z.of_nat n) (generateHash input, img0) = Some st ->
  st.1 = layerDigest input (pred n).
Proof.
  revert st. induction n as [|n IH]; intros st Hrun.
  - change (Z.of_nat 0) with 0 in Hrun. rewrite runLayers_0 in Hrun.
    by injection Hrun as <-.
  - replace (Z.of_nat (S n)) with (Z.of_nat n + 1) in Hrun by lia.
    rewrite runLayers_S in Hrun.
    destruct (runLayers o isOdd (Z.of_nat n) _) as [st0|] eqn:Hrun0; [|done].
    cbn in Hrun. apply layerStep_hash in Hrun. rewrite Hrun, (IH st0) by done.
    destruct n as [|n]; [done|].
    by destruct (Z.ltb_spec 0 (Z.of_nat (S n))); [|lia].
Qed.
End LayerLoop.

Lemma hashColor_derived (digest : string) (c : color.RGBA) :
  hashColor digest = Some c -> derivedColor digest c.
Proof.
  unfold hashColor, derivedColor. destruct_hash_bytes digest.
  intros [= <-]. by eexists _, _, _.
Qed.

Lemma avatarColor_colorOfLayer (o : options) (digest : string) (l : nat) (c : color.RGBA) :
  avatarColor o digest (Z.of_nat l) = Some c ->
  colorOfLayer (fgColors o) l digest c.
Proof.
  unfold avatarColor, colorOfLayer. rewrite Nat2Z.id.
  destruct (Z.ltb_spec (Z.of_nat l) (Z.of_nat (length (fgColors o)))) as [Hlt|Hge].
  - destruct (fgColors o !! l) as [c'|]; cbn; [|done].
    destruct (decide (c' = color.zero)); [apply hashColor_derived | congruence].
  - rewrite lookup_ge_None_2 by lia. apply hashColor_derived.
Qed.

Lemma cellRect_dims (img img' : Image) (x y gridSize imageSize : Z) :
  Dx img' = Dx img -> Dy img' = Dy img ->
  cellRect img' x y gridSize imageSize = cellRect img x y gridSize imageSize.
Proof. unfold cellRect. by intros -> ->. Qed.

Lemma painted_cells (img : Image) (c : color.RGBA) (gridSize imageSize : Z)
    (cells : list (Z * Z)) :
  wfImage img ->
  painted img
    (foldl (fun img cell => drawPixel img cell.1 cell.2 c gridSize imageSize) img cells)
    (layerRegion img gridSize imageSize cells) c.
Proof.
  intros Hwf.
  apply (painted_foldl _
           (fun cell => inRect (cellRect img cell.1 cell.2 gridSize imageSize))
           c (Dx img) (Dy img)); [|done..].
  intros img0 cell Hwf0 HDx HDy.
  rewrite <- (cellRect_dims img img0) by done.
  by apply painted_drawPixel.
Qed.

Lemma layerStep_painted (o : options) (l : Z) (st st' : string * Image) :
  wfImage st.2 ->
  layerStep o (negb (gridSize o `rem` 2 =? 0)) l st = Some st' ->
  let digest := if 0 <? l then generateHash st.1 else st.1 in
  exists cells c,
    layerCells digest (gridSize o) = Some cells /\
    avatarColor o digest l = Some c /\
    st'.1 = digest /\
    layerPass (fun x y img => drawPixel img x y c (gridSize o) (size o))
      digest (gridSize o) (negb (gridSize o `rem` 2 =? 0)) st.2 = Some st'.2 /\
    painted st.2 st'.2 (layerRegion st.2 (gridSize o) (size o) cells) c.
Proof.
  intros Hwf Hstep digest. unfold layerStep in Hstep. fold digest in Hstep.
  destruct (avatarColor o digest l) as [c|]; cbn in Hstep; [|done].
  destruct (layerPass _ digest _ _ _) as [img'|] eqn:Hpass; cbn in Hstep; [|done].
  injection Hstep as <-.
  destruct (Z.le_gt_cases (gridSize o) (Z.of_nat (String.length digest))) as [Hle|Hgt];
    [|by rewrite layerPass_short in Hpass].
  pose proof (layerCells_Some digest (gridSize o) Hle) as Hcells.
  exists (gridCells digest (gridSize o) (negb (gridSize o `rem` 2 =? 0))), c.
  repeat split; try done.
  all: rewrite (layerPass_cells _ _ _ _ _ Hcells) in Hpass; injection Hpass as <-.
  all: by apply painted_cells.
Qed.

Lemma layerStep_inv (o : options) (isOdd : bool) (l : Z) (st st' : string * Image) :
  layerStep o isOdd l st = Some st' ->
  let digest := if 0 <? l then generateHash st.1 else st.1 in
  exists c,
    avatarColor o digest l = Some c /\
    st'.1 = digest /\
    layerPass (fun x y img => drawPixel img x y c (gridSize o) (size o))
      digest (gridSize o) isOdd st.2 = Some st'.2.
Proof.
  intros Hstep digest. unfold layerStep in Hstep. fold digest in Hstep.
  destruct (avatarColor o digest l) as [c|]; cbn in Hstep; [|done].
  destruct (layerPass _ digest _ _ _) as [img'|] eqn:Hpass; cbn in Hstep; [|done].
  injection Hstep as <-. by exists c.
Qed.

Lemma colorOfLayer_unique (layerColors : list color.RGBA) (l : nat) (digest : string)
    (c c' : color.RGBA) :
  colorOfLayer layerColors l digest c -> colorOfLayer layerColors l digest c' -> c = c'.
Proof.
  assert (forall a b, derivedColor digest a -> derivedColor digest b -> a = b) as Hder.
  { intros a b (d0 & d1 & d2 & H0 & H1 & H2 & ->) (e0 & e1 & e2 & E0 & E1 & E2 & ->).
    congruence. }
  unfold colorOfLayer. destruct (layerColors !! l) as [c0|]; [|apply Hder].
  destruct (decide (c0 = color.zero)); [apply Hder | congruence].
Qed.

Lemma inRect_inBounds (img : Image) (x y gridSize imageSize px py : Z) :
  0 <= x -> 0 <= y -> 0 < gridSize -> 0 <= imageSize ->
  inRect (cellRect img x y gridSize imageSize) px py = true ->
  inBounds img px py = true.
Proof.
  intros Hx Hy Hg Hs. unfold cellRect, inRect. rewrite !andb_true_iff.
  pose proof (scaled_mono 0 x imageSize gridSize) as Hsx.
  pose proof (scaled_mono 0 y imageSize gridSize) as Hsy.
  rewrite scaled_zero in Hsx, Hsy.
  intros [[[? ?] ?] ?]. apply inBounds_spec.
  destruct (Z.ltb_spec (Dx img) (scaled (x + 1) imageSize gridSize));
    destruct (Z.ltb_spec (Dy img) (scaled (y + 1) imageSize gridSize)); lia.
Qed.

(** The rounds keep the buffer well formed and of the same dimensions. *)
Lemma runLayers_wf (o : options) (n : nat) (st st' : string * Image) :
  wfImage st.2 ->
  runLayers o (negb (gridSize o `rem` 2 =? 0)) (Z.of_nat n) st = Some st' ->
  wfImage st'.2 /\ Dx st'.2 = Dx st.2 /\ Dy st'.2 = Dy st.2.
Proof.
  intros Hwf. revert st'. induction n as [|n IH]; intros st' Hrun.
  - change (Z.of_nat 0) with 0 in Hrun. rewrite runLayers_0 in Hrun.
    by injection Hrun as <-.
  - replace (Z.of_nat (S n)) with (Z.of_nat n + 1) in Hrun by lia.
    rewrite runLayers_S in Hrun.
    destruct (runLayers o _ (Z.of_nat n) st) as [st0|]; [|done]. cbn in Hrun.
    destruct (IH st0 eq_refl) as (Hwf0 & HDx0 & HDy0).
    apply layerStep_painted in Hrun as (cells & c & _ & _ & _ & _ & Hp); [|done].
    destruct Hp as (HDx & HDy & Hwf' & _). split; [done|]. split; congruence.
Qed.

(** The image [Make] returns is [size] by [size] pixels. *)
Lemma Make_dims (input : string) (opts : list OptFunc) (o : options) (img : Image) :
  resolveOptions (generateHash input) opts = Some o ->
  Make input opts = Some img ->
  wfImage img /\ Dx img = size o /\ Dy img = size o.
Proof.
  intros Hres HMake. rewrite Make_layersOf, Hres in HMake. cbn in HMake.
  destruct (layersOf input o (layers o)) as [st|] eqn:Hall; [|done].
  injection HMake as <-.
  unfold layersOf in Hall. destruct (blankImage o) as [bg|] eqn:Hbg; [|done].
  apply blankImage_wf in Hbg as (Hwf & HDx & HDy & _). cbn in Hall.
  destruct (Z.le_gt_cases (layers o) 0) as [Hle|Hgt].
  - unfold runLayers, forRange, seqZ in Hall.
    replace (Z.to_nat (layers o - 0)) with 0%nat in Hall by lia.
    by injection Hall as <-.
  - replace (layers o) with (Z.of_nat (Z.to_nat (layers o))) in Hall by lia.
    apply runLayers_wf in Hall as (Hwf' & HDx' & HDy'); [|done].
    cbn in *. split; [done|]. split; congruence.
Qed.

(** The color the defaults put at index 0 is the one derived from the
    digest of layer 0. *)
Lemma defaultOptions_color (hash : string) (o : options) :
  defaultOptions hash = Some o ->
  exists c, fgColors o = [c] /\ derivedColor hash c.
Proof.
  unfold defaultOptions, derivedColor. destruct_hash_bytes hash.
  intros [= <-]. eexists. split; [reflexivity|]. by eexists _, _, _.
Qed.

(** C7. In the run of [Make] that returns [img], layer l is drawn with
    the digest [layerDigest input l] (the digest of the input for layer
    0, the hash of the previous layer's digest after that) and with the
    color the configuration holds at index l, if there is one and it is
    not the all-zero sentinel, else with (digest[0], digest[1],
    digest[2], 255) of that same digest. *)
Theorem layers_chain_digests_and_colors (input : string) (opts : list OptFunc)
    (o : options) (img : Image) (l : nat) :
  resolveOptions (generateHash input) opts = Some o ->
  Make input opts = Some img ->
  Z.of_nat l < layers o ->
  snd <$> layersOf input o (layers o) = Some img /\
  exists before after c,
    layersOf input o (Z.of_nat l) = Some before /\
    layersOf input o (Z.of_nat l + 1) = Some after /\
    after.1 = layerDigest input l /\
    colorOfLayer (fgColors o) l (layerDigest input l) c /\
    layerPass (fun x y img => drawPixel img x y c (gridSize o) (size o))
      (layerDigest input l) (gridSize o) (negb (gridSize o `rem` 2 =? 0)) before.2
    = Some after.2.
Proof.
  intros Hres HMake Hl. rewrite Make_layersOf, Hres in HMake. cbn in HMake.
  destruct (layersOf input o (layers o)) as [st|] eqn:Hall; [|done].
  split; [done|].
  unfold layersOf in *. destruct (blankImage o) as [bg|]; [|done].
  cbn -[drawPixel] in *.
  set (isOdd := negb (gridSize o `rem` 2 =? 0)) in *.
  replace (layers o) with (Z.of_nat (Z.to_nat (layers o))) in Hall by lia.
  destruct (runLayers_prefix o isOdd (S l) (Z.to_nat (layers o)) _ _ ltac:(lia) Hall)
    as [after Hafter].
  replace (Z.of_nat (S l)) with (Z.of_nat l + 1) in Hafter by lia.
  pose proof Hafter as Hstep. rewrite runLayers_S in Hstep.
  destruct (runLayers o isOdd (Z.of_nat l) _) as [before|] eqn:Hbefore; [|done].
  cbn in Hstep. apply layerStep_inv in Hstep as (c & Hc & Hhash & Hpass).
  assert ((if 0 <? Z.of_nat l then generateHash before.1 else before.1)
          = layerDigest input l) as Hdigest.
  { rewrite (runLayers_hash _ _ _ _ _ _ Hbefore).
    destruct l as [|l]; [done|]. by destruct (Z.ltb_spec 0 (Z.of_nat (S l))); [|lia]. }
  rewrite Hdigest in Hc, Hhash, Hpass.
  exists before, after, c. repeat split; try done.
  by apply avatarColor_colorOfLayer.
Qed.

Lemma layers_chain_digests_and_colors_witness :
  exists after,
    layersOf "test@example.com"
      (mkOptions 64 8 (color.mk 240 240 240 255) [color.mk 53 53 53 255] 2) 2
    = Some after /\
    after.1 = "a0f4323e8c147271c5df78e905f9e09b"%string.
Proof.
  set (o := mkOptions 64 8 (color.mk 240 240 240 255) [color.mk 53 53 53 255] 2).
  destruct (Make "test@example.com" [WithLayers 2]) as [img|] eqn:HMake;
    [|vm_compute in HMake; discriminate].
  assert (resolveOptions (generateHash "test@example.com") [WithLayers 2] = Some o)
    as Hres by (vm_compute; reflexivity).
  assert (Z.of_nat 1 < layers o) as Hl by (cbn; lia).
  destruct (layers_chain_digests_and_colors "test@example.com" [WithLayers 2] o img 1
              Hres HMake Hl) as [_ (before & after & c & _ & Hafter & Hhash & _)].
  exists after. split; [exact Hafter|]. rewrite Hhash. vm_compute. reflexivity.
Defined.

(** C5. With two layers, at a cell where the patterns of layer 0 and of
    layer 1 are both on, every pixel of the cell's block in the final
    image is exactly the color of layer 1, whatever its alpha channel:
    the later layer overwrites, it is not blended. *)
Theorem later_layer_overwrites (input : string) (opts : list OptFunc) (o : options)
    (img : Image) (cells0 cells1 : list (Z * Z)) (c1 : color.RGBA) (x y px py : Z) :
  resolveOptions (generateHash input) opts = Some o ->
  layers o = 2 ->
  Make input opts = Some img ->
  layerCells (layerDigest input 0) (gridSize o) = Some cells0 ->
  layerCells (layerDigest input 1) (gridSize o) = Some cells1 ->
  colorOfLayer (fgColors o) 1 (layerDigest input 1) c1 ->
  cellOn cells0 x y = true ->
  cellOn cells1 x y = true ->
  inRect (cellRect img x y (gridSize o) (size o)) px py = true ->
  At img px py = c1.
Proof.
  intros Hres Hlayers HMake Hcells0 Hcells1 Hc1 _ Hon Hrect.
  rewrite Make_layersOf, Hres in HMake. cbn in HMake.
  destruct (layersOf input o (layers o)) as [st|] eqn:Hall; [|done].
  injection HMake as <-.
  unfold layersOf in Hall. destruct (blankImage o) as [bg|] eqn:Hbg; [|done].
  apply blankImage_wf in Hbg as (Hwf & HDx & HDy & _). cbn in Hall.
  set (isOdd := negb (gridSize o `rem` 2 =? 0)) in *.
  rewrite Hlayers, runLayers_2 in Hall.
  destruct (layerStep o isOdd 0 _) as [st0|] eqn:Hstep0; [|done]. cbn in Hall.
  apply layerStep_painted in Hstep0 as (cs0 & c0 & _ & _ & Hh0 & _ & Hp0); [|done].
  destruct Hp0 as (HDx0 & HDy0 & Hwf0 & _). cbn in Hh0, HDx0, HDy0.
  apply layerStep_painted in Hall as (cs1 & c & Hcs1 & Hc & _ & _ & Hp1); [|done].
  change (Z.of_nat 1) with 1 in *. cbn in Hcs1, Hc. rewrite Hh0 in Hcs1, Hc.
  change (generateHash (generateHash input)) with (layerDigest input 1) in Hcs1, Hc.
  rewrite Hcells1 in Hcs1. injection Hcs1 as <-.
  assert (c = c1) as ->
    by (eapply colorOfLayer_unique; [by apply (avatarColor_colorOfLayer o _ 1)|done]).
  destruct Hp1 as (HDx1 & HDy1 & Hwf1 & Hpix).
  apply bool_decide_eq_true in Hon.
  pose proof Hcells1 as [_ Hgrid]%layerCells_inv.
  pose proof Hon as Hin. rewrite Hgrid in Hin. apply gridCells_in_grid in Hin.
  assert (cellRect st.2 x y (gridSize o) (size o)
          = cellRect st0.2 x y (gridSize o) (size o)) as Hsame
    by (by apply cellRect_dims).
  rewrite Hpix.
  assert (inBounds st0.2 px py = true) as ->.
  { rewrite <- (inBounds_dims st0.2 st.2) by done.
    apply (inRect_inBounds _ x y (gridSize o) (size o)); [lia | lia | lia | | done].
    destruct Hwf as [? _]. lia. }
  assert (layerRegion st0.2 (gridSize o) (size o) cells1 px py = true) as ->; [|done].
  unfold layerRegion. apply existsb_exists. exists (x, y).
  split; [by apply list_elem_of_In|]. cbn [fst snd]. by rewrite <- Hsame.
Qed.

Lemma later_layer_overwrites_witness :
  exists img,
    Make "test@example.com" [WithLayers 2; WithLayerColor 1 0 255 0 128] = Some img /\
    At img 0 0 = color.mk 0 255 0 128 /\
    At img 55 39 = color.mk 0 255 0 128.
Proof.
  set (opts := [WithLayers 2; WithLayerColor 1 0 255 0 128]).
  set (o := mkOptions 64 8 (color.mk 240 240 240 255)
              [color.mk 53 53 53 255; color.mk 0 255 0 128] 2).
  destruct (Make "test@example.com" opts) as [img|] eqn:HMake;
    [|vm_compute in HMake; discriminate].
  assert (resolveOptions (generateHash "test@example.com") opts = Some o)
    as Hres by (vm_compute; reflexivity).
  destruct (Make_dims _ _ _ _ Hres HMake) as (_ & HDx & HDy).
  assert (forall x y px py,
            inRect (x * 8, y * 8, x * 8 + 8, y * 8 + 8) px py = true ->
            0 <= x < 8 -> 0 <= y < 8 ->
            inRect (cellRect img x y (gridSize o) (size o)) px py = true) as Hblock.
  { intros x y px py Hin Hx Hy.
    rewrite cellRect_inside by first [exact HDx | exact HDy | unfold o; cbn; lia].
    unfold o. cbn [gridSize size].
    assert (forall k, 0 <= k -> scaled k 64 8 = k * 8) as Hscaled.
    { intros k Hk. rewrite scaled_nonneg by lia.
      replace (2 * (k * 64) + 8) with (8 + k * 8 * (2 * 8)) by lia.
      by rewrite Z.div_add. }
    rewrite !Hscaled by lia.
    by replace ((x + 1) * 8) with (x * 8 + 8) by lia;
       replace ((y + 1) * 8) with (y * 8 + 8) by lia. }
  exists img. split; [reflexivity|]. split.
  - eapply (later_layer_overwrites "test@example.com" opts o img _ _ _ 0 0 0 0
              Hres eq_refl HMake).
    + vm_compute. reflexivity.
    + vm_compute. reflexivity.
    + vm_compute. reflexivity.
    + vm_compute. reflexivity.
    + vm_compute. reflexivity.
    + apply Hblock; [reflexivity | lia | lia].
  - eapply (later_layer_overwrites "test@example.com" opts o img _ _ _ 6 4 55 39
              Hres eq_refl HMake).
    + vm_compute. reflexivity.
    + vm_compute. reflexivity.
    + vm_compute. reflexivity.
    + vm_compute. reflexivity.
    + vm_compute. reflexivity.
    + apply Hblock; [reflexivity | lia | lia].
Defined.



(** C6. [Make] is not total over the options [WithGridSize] accepts:
    every g > 8 passes the validation, and with more than 32 rows [Make]
    reads past the 32 characters of the hash and panics, whatever the
    input string. *)
Theorem Make_panics_beyond_32_rows (input : string) (g : Z) :
  32 < g -> Make input [WithGridSize g] = None.
Proof.
  intros Hg. rewrite Make_layersOf.
  destruct (resolveOptions _ _) as [o|] eqn:Hres; [|done]. cbn.
  assert (gridSize o = g /\ layers o = 1) as [Hgrid Hlayers].
  { unfold resolveOptions, defaultOptions in Hres.
    destruct_hash_bytes (generateHash input). cbn in Hres.
    destruct (Z.ltb_spec 8 g); [|lia]. by injection Hres as <-. }
  unfold layersOf. destruct (blankImage o) as [bg|]; [|done]. cbn.
  rewrite Hlayers, runLayers_1.
  unfold layerStep. cbn. destruct (avatarColor _ _ _) as [c|]; [|done]. cbn.
  rewrite layerPass_short; [done|]. rewrite generateHash_length, Hgrid. lia.
Qed.

Lemma Make_panics_beyond_32_rows_witness :
  32 < 33 /\ Make "" [WithGridSize 33] = None.
Proof. split; [lia|]. apply (Make_panics_beyond_32_rows "" 33). lia. Defined.

(** The same failing call, evaluated. *)
Example Make_grid_33_panics : Make "" [WithGridSize 33] = None.
Proof. vm_compute. reflexivity. Qed.

(** A negative layer index panics as well. *)
Example Make_negative_layer_panics : Make "" [WithLayerColor (-1) 0 0 0 255] = None.
Proof. vm_compute. reflexivity. Qed.

(** ** Where Make completes *)

Lemma forEach_total {A S : Type} (I : S -> Prop) (body : A -> S -> option S)
    (l : list A) (s : S) :
  (forall a s0, a ∈ l -> I s0 -> exists s1, body a s0 = Some s1 /\ I s1) ->
  I s -> exists s', forEach body l s = Some s' /\ I s'.
Proof.
  revert s. induction l as [|a l IH]; intros s Hbody Hs; [by exists s|].
  destruct (Hbody a s) as (s1 & Hs1 & HI1); [by left | done |].
  cbn. rewrite Hs1. cbn. apply IH; [|done].
  intros b s0 Hb. apply Hbody. by right.
Qed.

Lemma forEach_invariant {A S : Type} (I : S -> Prop) (body : A -> S -> option S)
    (l : list A) (s s' : S) :
  (forall a s0 s1, a ∈ l -> I s0 -> body a s0 = Some s1 -> I s1) ->
  I s -> forEach body l s = Some s' -> I s'.
Proof.
  revert s. induction l as [|a l IH]; intros s Hbody Hs Hrun.
  - by injection Hrun as <-.
  - cbn in Hrun. destruct (body a s) as [s1|] eqn:Hs1; [|done]. cbn in Hrun.
    apply (IH s1); [|by apply (Hbody a s); [left|..]|done].
    intros b s0 s2 Hb. apply Hbody. by right.
Qed.

(** The bounds the data model states for a configuration hold after any
    sequence of exported options that does not panic. *)
Lemma resolveOptions_bounds (hash : string) (opts : list OptFunc) (o : options) :
  Forall exported opts ->
  resolveOptions hash opts = Some o ->
  64 <= size o /\ 8 <= gridSize o /\ 1 <= layers o <= 3.
Proof.
  intros Hex Hres. unfold resolveOptions in Hres.
  destruct (defaultOptions hash) as [o0|] eqn:Hdef; [|done]. cbn in Hres.
  assert (64 <= size o0 /\ 8 <= gridSize o0 /\ 1 <= layers o0 <= 3) as H0.
  { unfold defaultOptions in Hdef. destruct_hash_bytes hash.
    injection Hdef as <-. cbn. lia. }
  revert H0 Hres.
  apply (forEach_invariant
           (fun o => 64 <= size o /\ 8 <= gridSize o /\ 1 <= layers o <= 3)).
  intros opt o1 o2 Hopt Ho1 Happ.
  rewrite Forall_forall in Hex. apply list_elem_of_In in Hopt.
  destruct (Hex opt Hopt).
  - unfold WithSize in Happ. injection Happ as <-.
    destruct (Z.leb_spec 64 s); cbn; lia.
  - unfold WithGridSize in Happ. injection Happ as <-.
    destruct (Z.ltb_spec 8 g); cbn; lia.
  - injection Happ as <-. cbn. lia.
  - injection Happ as <-. cbn. lia.
  - unfold WithLayers in Happ. injection Happ as <-.
    destruct (Z.leb_spec 1 n), (Z.leb_spec n 3); cbn; lia.
  - unfold WithLayerColor in Happ.
    destruct (setIndex _ _ _); [|done]. injection Happ as <-. cbn. lia.
Qed.

Lemma layerStep_total (o : options) (isOdd : bool) (l : Z) (st : string * Image) :
  0 <= l -> String.length st.1 = 32%nat -> gridSize o <= 32 ->
  exists st', layerStep o isOdd l st = Some st' /\ String.length st'.1 = 32%nat.
Proof.
  intros Hl Hlen Hg. unfold layerStep.
  set (digest := if 0 <? l then generateHash st.1 else st.1).
  assert (String.length digest = 32%nat) as Hdigest
    by (unfold digest; destruct (0 <? l); [apply generateHash_length | done]).
  assert (is_Some (avatarColor o digest l)) as [c ->].
  { unfold avatarColor.
    destruct (Z.ltb_spec l (Z.of_nat (length (fgColors o)))) as [Hlt|Hge];
      [|apply hashColor_long; lia].
    destruct (lookup_lt_is_Some_2 (fgColors o) (Z.to_nat l)) as [c' ->]; [lia|].
    cbn. destruct (decide (c' = color.zero)); [apply hashColor_long; lia | by eexists]. }
  cbn. rewrite layerPass_bytes.
  - cbn. by eexists.
  - intros y Hy. destruct (byteAt_in_range digest y) as [b Hb]; [lia|]. by eexists.
Qed.

(** [Make] completes for every configuration whose grid has at most 32
    rows and whose buffer length fits an [int]. *)
Lemma Make_completes (input : string) (opts : list OptFunc) (o : options) :
  resolveOptions (generateHash input) opts = Some o ->
  0 <= size o -> 4 * size o * size o < 2 ^ 63 ->
  gridSize o <= 32 ->
  exists img, Make input opts = Some img.
Proof.
  intros Hres Hs0 Hs Hg. rewrite Make_layersOf, Hres. cbn.
  unfold layersOf, blankImage, NewRGBA, mul3NonNeg.
  destruct (Z.ltb_spec (size o) 0); [lia|]. cbn.
  destruct (Z.leb_spec (2 ^ 64) (4 * size o)); [nia|].
  destruct (Z.leb_spec (2 ^ 64) (4 * size o * size o)); [lia|].
  destruct (Z.leb_spec (2 ^ 63) (4 * size o * size o)); [lia|].
  destruct (Z.ltb_spec (4 * size o * size o) 0); [lia|]. cbn.
  unfold runLayers, forRange.
  set (isOdd := negb (gridSize o `rem` 2 =? 0)).
  set (bg := fillUniform _ _).
  destruct (forEach_total (fun st : string * Image => String.length st.1 = 32%nat)
              (layerStep o isOdd) (seqZ 0 (layers o - 0)) (generateHash input, bg))
    as (st & -> & _); [| |by eexists].
  - intros l st [Hl _]%elem_of_seqZ Hlen. by apply layerStep_total.
  - apply generateHash_length.
Qed.

(** The scenario of the package's test: with the defaults the image for
    "test@example.com" is 64 by 64, and its top-left pixel has the color
    of layer 0, since bit 0 of the first hash character '5' is set. *)
Example Make_default_scenario :
  (fun img => (Dx img, Dy img, At img 0 0, At img 8 0)) <$> Make "test@example.com" []
  = Some (64, 64, color.mk 53 53 53 255, color.mk 240 240 240 255).
Proof. vm_compute. reflexivity. Qed.

(** * Further properties of the package *)

(** ** The returned image *)

(** X1. The image [Make] returns is [size] pixels wide and high, where
    [size] is the resolved size, and its buffer holds one entry for each
    of its size * size pixels. *)
Theorem Make_returns_square_image (input : string) (opts : list OptFunc)
    (o : options) (img : Image) :
  resolveOptions (generateHash input) opts = Some o ->
  Make input opts = Some img ->
  Dx img = size o /\ Dy img = size o /\
  length (Pix img) = Z.to_nat (size o * size o).
Proof.
  intros Hres HMake.
  destruct (Make_dims input opts o img Hres HMake) as ((_ & _ & Hlen) & HDx & HDy).
  rewrite HDx, HDy in Hlen. done.
Qed.

Lemma Make_returns_square_image_witness :
  exists img,
    Make "custom-size" [WithSize 100] = Some img /\
    Dx img = 100 /\ Dy img = 100 /\ length (Pix img) = Z.to_nat (100 * 100).
Proof.
  set (o := mkOptions 100 8 (color.mk 240 240 240 255) [color.mk 50 102 54 255] 1).
  assert (resolveOptions (generateHash "custom-size") [WithSize 100] = Some o) as Hres
    by (vm_compute; reflexivity).
  destruct (Make_completes "custom-size" [WithSize 100] o Hres) as [img HMake];
    [cbn; lia..|].
  exists img. split; [exact HMake|].
  exact (Make_returns_square_image "custom-size" [WithSize 100] o img Hres HMake).
Defined.

(** ** The options *)

(** X3. Whatever exported options are applied, in whatever order, the
    configuration [Make] works with keeps size >= 64, gridSize >= 8 and
    1 <= layers <= 3. *)
Theorem exported_options_keep_bounds (hash : string) (opts : list OptFunc) (o : options) :
  Forall exported opts ->
  resolveOptions hash opts = Some o ->
  64 <= size o /\ 8 <= gridSize o /\ 1 <= layers o <= 3.
Proof. apply resolveOptions_bounds. Qed.

Lemma exported_options_keep_bounds_witness :
  exists o,
    resolveOptions (generateHash "a")
      [WithSize 10; WithGridSize (-3); WithLayers 7; WithSize 200; WithLayers 0] = Some o /\
    64 <= size o /\ 8 <= gridSize o /\ 1 <= layers o <= 3.
Proof.
  eexists. split; [vm_compute; reflexivity|].
  apply (exported_options_keep_bounds (generateHash "a")
           [WithSize 10; WithGridSize (-3); WithLayers 7; WithSize 200; WithLayers 0]).
  - repeat constructor.
  - vm_compute. reflexivity.
Defined.

Lemma lookup_expand_old (fg : list color.RGBA) (layerIndex : Z) (j : nat) :
  (j < length fg)%nat -> expand fg layerIndex !! j = fg !! j.
Proof. intros Hj. rewrite expand_eq. by apply lookup_app_l. Qed.

Lemma lookup_expand_new (fg : list color.RGBA) (layerIndex : Z) (j : nat) :
  (length fg <= j)%nat -> Z.of_nat j <= layerIndex ->
  expand fg layerIndex !! j = Some color.zero.
Proof.
  intros Hj Hle. rewrite expand_eq, lookup_app_r by done.
  apply lookup_replicate_2. lia.
Qed.

Lemma length_expand (fg : list color.RGBA) (layerIndex : Z) :
  Z.of_nat (length (expand fg layerIndex)) = Z.max (Z.of_nat (length fg)) (layerIndex + 1).
Proof. rewrite expand_eq, length_app, length_replicate. lia. Qed.

(** X4. For an index i >= 0, [WithLayerColor(i, r,g,b,a)] returns
    normally; the color list becomes max(len, i+1) long, holds (r,g,b,a)
    at index i, keeps every other color it had, and holds the all-zero
    color at the new indices below i; no other field changes. *)
Theorem WithLayerColor_sets_and_pads (layerIndex r g b a : Z) (o : options) :
  0 <= layerIndex ->
  exists o',
    WithLayerColor layerIndex r g b a o = Some o' /\
    Z.of_nat (length (fgColors o'))
    = Z.max (Z.of_nat (length (fgColors o))) (layerIndex + 1) /\
    fgColors o' !! Z.to_nat layerIndex = Some (color.mk r g b a) /\
    (forall j : nat, (j < length (fgColors o))%nat -> Z.of_nat j <> layerIndex ->
       fgColors o' !! j = fgColors o !! j) /\
    (forall j : nat, (length (fgColors o) <= j)%nat -> Z.of_nat j < layerIndex ->
       fgColors o' !! j = Some color.zero) /\
    (size o', gridSize o', bgColor o', layers o')
    = (size o, gridSize o, bgColor o, layers o).
Proof.
  intros Hi. eexists. split; [by apply WithLayerColor_nonneg|]. cbn.
  pose proof (expand_done (fgColors o) layerIndex) as Hdone.
  repeat apply conj.
  - rewrite length_insert. apply length_expand.
  - apply list_lookup_insert_eq. lia.
  - intros j Hj Hne. rewrite list_lookup_insert_ne by lia.
    by apply lookup_expand_old.
  - intros j Hj Hlt. rewrite list_lookup_insert_ne by lia.
    apply lookup_expand_new; [done | lia].
  - reflexivity.
Qed.

Lemma WithLayerColor_sets_and_pads_witness :
  exists o',
    WithLayerColor 4 1 2 3 4 sampleOptions = Some o' /\
    fgColors o'
    = [color.mk 53 53 53 255; color.zero; color.zero; color.zero; color.mk 1 2 3 4].
Proof.
  destruct (WithLayerColor_sets_and_pads 4 1 2 3 4 sampleOptions ltac:(lia))
    as (o' & Ho' & _).
  exists o'. split; [exact Ho'|].
  vm_compute in Ho'. by injection Ho' as <-.
Defined.

Lemma forEach_None_elem {A S : Type} (body : A -> S -> option S) (l : list A) (a : A) (s : S) :
  a ∈ l -> (forall s', body a s' = None) -> forEach body l s = None.
Proof.
  intros Hin Ha. revert s. induction l as [|b l IH]; intros s.
  - by apply elem_of_nil in Hin.
  - cbn. apply elem_of_cons in Hin as [<-|Hin]; [by rewrite Ha|].
    destruct (body b s) as [s'|]; [|done]. cbn. by apply IH.
Qed.

(** X5. A negative layer index makes [Make] panic: when the options
    contain [WithLayerColor(i, ...)] with i < 0, wherever in the list and
    whatever the input and the other options, no image is returned. *)
Theorem negative_layer_index_panics (input : string) (opts : list OptFunc)
    (layerIndex r g b a : Z) :
  layerIndex < 0 ->
  WithLayerColor layerIndex r g b a ∈ opts ->
  Make input opts = None.
Proof.
  intros Hneg Hin. unfold Make, resolveOptions.
  destruct (defaultOptions _) as [o0|]; [|done]. cbn.
  rewrite (forEach_None_elem _ opts (WithLayerColor layerIndex r g b a)); [done..|].
  intros o. by apply WithLayerColor_negative.
Qed.

Lemma negative_layer_index_panics_witness :
  Make "a" [WithSize 128; WithLayerColor (-1) 255 0 0 255; WithLayers 2] = None.
Proof.
  apply (negative_layer_index_panics "a" _ (-1) 255 0 0 255); [lia|].
  apply list_elem_of_further, list_elem_of_here.
Defined.

(** ** The hash *)

Lemma le32_bytes (w : Z) : Forall (fun b => 0 <= b < 256) (MD5.le32 w).
Proof. unfold MD5.le32. repeat constructor; apply Z.mod_pos_bound; lia. Qed.

Lemma Sum_bytes (data : list Z) : Forall (fun b => 0 <= b < 256) (MD5.Sum data).
Proof.
  unfold MD5.Sum. destruct (MD5.blocks _ _ _) as [[[a b] c] d].
  rewrite !Forall_app. auto using le32_bytes.
Qed.

Lemma hexDigit_code (d : Z) :
  0 <= d < 16 -> isHexCode (Z.of_N (N_of_ascii (hexDigit d))).
Proof.
  intros Hd. unfold hexDigit. rewrite N_ascii_embedding.
  - unfold isHexCode. destruct (Z.ltb_spec d 10); lia.
  - destruct (Z.ltb_spec d 10); lia.
Qed.

Lemma EncodeToString_hex (bs : list Z) :
  Forall (fun b => 0 <= b < 256) bs ->
  forall n a, String.get n (EncodeToString bs) = Some a ->
    isHexCode (Z.of_N (N_of_ascii a)).
Proof.
  induction 1 as [|b bs Hb _ IH]; intros n a Hget; [done|].
  destruct n as [|[|n]]; cbn in Hget.
  - injection Hget as <-. apply hexDigit_code.
    split; [apply Z.div_pos; lia | apply Z.div_lt_upper_bound; lia].
  - injection Hget as <-. apply hexDigit_code, Z.mod_pos_bound. lia.
  - by apply (IH n).
Qed.

Lemma generateHash_hex (data : string) (i b : Z) :
  byteAt (generateHash data) i = Some b -> isHexCode b.
Proof.
  unfold byteAt. destruct (i <? 0); [done|].
  destruct (String.get _ _) as [a|] eqn:Hget; [|done].
  intros [= <-]. by apply (EncodeToString_hex _ (Sum_bytes (bytesOf data)) _ _ Hget).
Qed.

(** X6. Whatever the input (the empty string included), [generateHash]
    returns 32 characters, each the code of a lower-case hexadecimal
    digit: every index from 0 to 31 holds a byte in '0'..'9' or 'a'..'f',
    and no other index holds one. *)
Theorem hash_is_32_hex_digits (data : string) :
  String.length (generateHash data) = 32%nat /\
  (forall i, 0 <= i < 32 ->
     exists b, byteAt (generateHash data) i = Some b /\ isHexCode b) /\
  (forall i, i < 0 \/ 32 <= i -> byteAt (generateHash data) i = None).
Proof.
  pose proof (generateHash_length data) as Hlen. repeat apply conj; [done| |].
  - intros i Hi. destruct (byteAt_in_range (generateHash data) i) as [b Hb]; [lia|].
    exists b. split; [done|]. by apply (generateHash_hex data i).
  - intros i Hi. apply byteAt_out_of_range. lia.
Qed.

Lemma hash_is_32_hex_digits_witness :
  exists b, byteAt (generateHash "") 31 = Some b /\ isHexCode b.
Proof.
  destruct (hash_is_32_hex_digits "") as (_ & Hin & _). apply Hin. lia.
Defined.

Lemma hexCode_bits (c : Z) :
  isHexCode c -> Z.testbit c 5 = true /\ Z.testbit c 7 = false.
Proof.
  intros Hc.
  assert (c = 48 \/ c = 49 \/ c = 50 \/ c = 51 \/ c = 52 \/ c = 53 \/ c = 54 \/ c = 55
          \/ c = 56 \/ c = 57 \/ c = 97 \/ c = 98 \/ c = 99 \/ c = 100 \/ c = 101
          \/ c = 102) as Hcases by (unfold isHexCode in Hc; lia).
  repeat (destruct Hcases as [->|Hcases]; [by split|]). by subst.
Qed.

(** X7. Because the rows are read from hexadecimal characters, two
    columns of every pattern are fixed: in a layer of [Make], a left-half
    column x with x mod 8 = 5 is on in every row, together with its
    mirror column, and one with x mod 8 = 7 is off in every row, together
    with its mirror column. *)
Theorem hex_digits_fix_columns (input : string) (l : nat) (gridSize x y : Z)
    (cells : list (Z * Z)) :
  layerCells (layerDigest input l) gridSize = Some cells ->
  0 <= y < gridSize -> 0 <= x < gridSize / 2 ->
  (x mod 8 = 5 ->
     cellOn cells x y = true /\ cellOn cells (gridSize - 1 - x) y = true) /\
  (x mod 8 = 7 ->
     cellOn cells x y = false /\ cellOn cells (gridSize - 1 - x) y = false).
Proof.
  intros [Hg ->]%layerCells_inv Hy Hx.
  set (digest := layerDigest input l) in *.
  rewrite <- Z.quot_div_nonneg in Hx by lia.
  destruct (byteAt_in_range digest y) as [b Hb]; [lia|].
  assert (isHexCode b) as [Hb5 Hb7]%hexCode_bits
    by (destruct l; apply (generateHash_hex _ y b Hb)).
  assert (rowByte digest y = b) as Hrow by (unfold rowByte; by rewrite Hb).
  assert (forall v, cellOn (gridCells digest gridSize (negb (gridSize `rem` 2 =? 0))) x y = v
                    <-> Z.testbit b (x mod 8) = v) as Hleft.
  { intros v. rewrite <- bitOf_testbit, <- Hrow by lia.
    rewrite (cellOn_iff _ x y (bitOf (rowByte digest y) x)); [done|].
    apply gridCells_left; lia. }
  assert (forall v, cellOn (gridCells digest gridSize (negb (gridSize `rem` 2 =? 0)))
                      (gridSize - 1 - x) y = v
                    <-> Z.testbit b (x mod 8) = v) as Hright.
  { intros v. rewrite <- bitOf_testbit, <- Hrow by lia.
    rewrite (cellOn_iff _ (gridSize - 1 - x) y (bitOf (rowByte digest y) x)); [done|].
    apply gridCells_right; lia. }
  split; intros Hmod; rewrite Hleft, Hright, Hmod; done.
Qed.

Lemma hex_digits_fix_columns_witness :
  exists cells,
    layerCells (layerDigest "test@example.com" 1) 16 = Some cells /\
    cellOn cells 5 3 = true /\ cellOn cells 10 3 = true /\
    cellOn cells 7 3 = false /\ cellOn cells 8 3 = false.
Proof.
  destruct (layerCells (layerDigest "test@example.com" 1) 16) as [cells|] eqn:Hc;
    [|vm_compute in Hc; discriminate].
  exists cells. split; [reflexivity|].
  destruct (hex_digits_fix_columns "test@example.com" 1 16 5 3 cells Hc
              ltac:(lia) ltac:(change (16 / 2) with 8; lia)) as [H5 _].
  destruct (hex_digits_fix_columns "test@example.com" 1 16 7 3 cells Hc
              ltac:(lia) ltac:(change (16 / 2) with 8; lia)) as [_ H7].
  destruct (H5 eq_refl) as [H5l H5r]. destruct (H7 eq_refl) as [H7l H7r].
  exact (conj H5l (conj H5r (conj H7l H7r))).
Defined.

(** X8. The color derived from a hash always exists, is opaque and is
    never the all-zero sentinel: its red, green and blue channels are the
    codes of the first three hexadecimal characters, hence between 48 and
    102, and its alpha is 255. *)
Theorem derived_color_is_opaque_hex (data : string) :
  exists c,
    hashColor (generateHash data) = Some c /\
    isHexCode (color.R c) /\ isHexCode (color.G c) /\ isHexCode (color.B c) /\
    color.A c = 255 /\ c <> color.zero.
Proof.
  destruct (hashColor_long (generateHash data)) as [c Hc];
    [rewrite generateHash_length; lia|].
  exists c. split; [done|]. unfold hashColor in Hc.
  destruct (byteAt _ 0) as [h0|] eqn:H0; [|done].
  destruct (byteAt _ 1) as [h1|] eqn:H1; [|done].
  destruct (byteAt _ 2) as [h2|] eqn:H2; [|done].
  injection Hc as <-. cbn.
  repeat apply conj; eauto using generateHash_hex.
Qed.

(** ** When Make completes *)

Lemma runLayers_to_nat (o : options) (isOdd : bool) (n : Z) (st : string * Image) :
  runLayers o isOdd n st = runLayers o isOdd (Z.of_nat (Z.to_nat n)) st.
Proof.
  unfold runLayers, forRange, seqZ.
  by replace (Z.to_nat (Z.of_nat (Z.to_nat n) - 0)) with (Z.to_nat (n - 0)) by lia.
Qed.

Lemma NewRGBA_Some_inv (w h : Z) (img : Image) :
  NewRGBA w h = Some img -> 0 <= w /\ 0 <= h /\ 4 * w * h < 2 ^ 63.
Proof.
  unfold NewRGBA, mul3NonNeg.
  destruct (Z.ltb_spec w 0), (Z.ltb_spec h 0); cbn; try discriminate.
  destruct (Z.leb_spec (2 ^ 64) (4 * w)); [discriminate|].
  destruct (Z.leb_spec (2 ^ 64) (4 * w * h)); [discriminate|].
  destruct (Z.leb_spec (2 ^ 63) (4 * w * h)); [discriminate|].
  intros _. lia.
Qed.

(** A run that draws at least one layer and completes has at most 32
    rows, and its buffer length fits an [int]. *)
Lemma Make_Some_inv (input : string) (opts : list OptFunc) (o : options) (img : Image) :
  resolveOptions (generateHash input) opts = Some o ->
  Make input opts = Some img ->
  1 <= layers o ->
  gridSize o <= 32 /\ 0 <= size o /\ 4 * size o * size o < 2 ^ 63.
Proof.
  intros Hres HMake Hlayers. rewrite Make_layersOf, Hres in HMake. cbn in HMake.
  destruct (layersOf input o (layers o)) as [st|] eqn:Hall; [|done].
  unfold layersOf, blankImage in Hall.
  destruct (NewRGBA _ _) as [img0|] eqn:Hnew; [|done]. cbn in Hall.
  apply NewRGBA_Some_inv in Hnew as (Hs & _ & Hfit). split; [|done].
  rewrite runLayers_to_nat in Hall.
  destruct (runLayers_prefix _ _ 1 (Z.to_nat (layers o)) _ _ ltac:(lia) Hall)
    as [st1 Hst1].
  change (Z.of_nat 1) with 1 in Hst1. rewrite runLayers_1 in Hst1.
  apply layerStep_inv in Hst1 as (c & _ & _ & Hpass). cbn in Hpass.
  destruct (Z.le_gt_cases (gridSize o) 32) as [Hle|Hgt]; [done|].
  rewrite layerPass_short in Hpass; [done|]. rewrite generateHash_length. lia.
Qed.

(** X2. A run of [Make] that returns an image has at most 32 grid rows
    and a buffer length 4 * size * size that fits a 64-bit [int]: with
    exported options resolving to any other configuration, [Make]
    panics. *)
Theorem Make_returns_only_within_limits (input : string) (opts : list OptFunc)
    (o : options) (img : Image) :
  Forall exported opts ->
  resolveOptions (generateHash input) opts = Some o ->
  Make input opts = Some img ->
  gridSize o <= 32 /\ 4 * size o * size o < 2 ^ 63.
Proof.
  intros Hex Hres HMake.
  pose proof (resolveOptions_bounds _ _ _ Hex Hres) as (_ & _ & Hlayers).
  destruct (Make_Some_inv input opts o img Hres HMake) as (? & _ & ?); [lia | done].
Qed.

Lemma Make_returns_only_within_limits_witness :
  exists img,
    Make "a" [WithGridSize 32; WithLayers 3] = Some img /\
    32 <= 32 /\ 4 * 64 * 64 < 2 ^ 63.
Proof.
  set (opts := [WithGridSize 32; WithLayers 3]).
  set (o := mkOptions 64 32 (color.mk 240 240 240 255) [color.mk 48 99 99 255] 3).
  assert (resolveOptions (generateHash "a") opts = Some o) as Hres
    by (vm_compute; reflexivity).
  destruct (Make_completes "a" opts o Hres) as [img HMake]; [cbn; lia..|].
  exists img. split; [exact HMake|].
  apply (Make_returns_only_within_limits "a" opts o img); [|exact Hres|exact HMake].
  repeat constructor.
Defined.



(** ** The color of every pixel *)

Lemma layerRegion_dims (img img' : Image) (gridSize imageSize : Z) (cells : list (Z * Z))
    (px py : Z) :
  Dx img' = Dx img -> Dy img' = Dy img ->
  layerRegion img' gridSize imageSize cells px py
  = layerRegion img gridSize imageSize cells px py.
Proof.
  intros HDx HDy. unfold layerRegion.
  induction cells as [|cell cells IH]; [done|]. cbn [existsb].
  by rewrite IH, (cellRect_dims img img').
Qed.

Lemma composite_dims (input : string) (o : options) (img img' : Image) (n : nat)
    (px py : Z) :
  Dx img' = Dx img -> Dy img' = Dy img ->
  composite input o img' n px py = composite input o img n px py.
Proof.
  intros HDx HDy. induction n as [|n IH]; [done|]. cbn.
  destruct (layerCells _ _) as [cells|]; [|done].
  destruct (avatarColor _ _ _) as [c|]; [|done].
  by rewrite IH, (layerRegion_dims img img').
Qed.

(** After [n] rounds every pixel holds the composite of the first [n]
    layers. *)
Lemma runLayers_composite (input : string) (o : options) (bg : Image) (n : nat)
    (st : string * Image) :
  wfImage bg ->
  (forall px py, inBounds bg px py = true -> At bg px py = bgColor o) ->
  runLayers o (negb (gridSize o `rem` 2 =? 0)) (Z.of_nat n) (generateHash input, bg)
  = Some st ->
  wfImage st.2 /\ Dx st.2 = Dx bg /\ Dy st.2 = Dy bg /\
  forall px py, inBounds bg px py = true ->
    At st.2 px py = composite input o bg n px py.
Proof.
  intros Hwf Hbg. revert st. induction n as [|n IH]; intros st Hrun.
  - change (Z.of_nat 0) with 0 in Hrun. rewrite runLayers_0 in Hrun.
    injection Hrun as <-. cbn. split; [done|]. split; [done|]. split; [done|].
    exact Hbg.
  - replace (Z.of_nat (S n)) with (Z.of_nat n + 1) in Hrun by lia.
    rewrite runLayers_S in Hrun.
    destruct (runLayers o _ (Z.of_nat n) _) as [st0|] eqn:Hrun0; [|done].
    cbn in Hrun. destruct (IH st0 eq_refl) as (Hwf0 & HDx0 & HDy0 & Hpix0).
    apply layerStep_painted in Hrun as (cells & c & Hcells & Hc & _ & _ & Hp); [|done].
    assert ((if 0 <? Z.of_nat n then generateHash st0.1 else st0.1)
            = layerDigest input n) as Hdigest.
    { rewrite (runLayers_hash _ _ _ _ _ _ Hrun0).
      destruct n as [|n]; [done|]. by destruct (Z.ltb_spec 0 (Z.of_nat (S n))); [|lia]. }
    rewrite Hdigest in Hcells, Hc.
    destruct Hp as (HDx & HDy & Hwf' & Hpix).
    split; [done|]. split; [congruence|]. split; [congruence|].
    intros px py Hin. cbn. rewrite Hcells, Hc, Hpix.
    rewrite (inBounds_dims bg st0.2), Hin by done. cbn.
    rewrite (layerRegion_dims bg st0.2) by done.
    destruct (layerRegion bg _ _ cells px py); [done|]. by apply Hpix0.
Qed.

Lemma Make_pixel (input : string) (opts : list OptFunc) (o : options) (img : Image)
    (px py : Z) :
  resolveOptions (generateHash input) opts = Some o ->
  Make input opts = Some img ->
  inBounds img px py = true ->
  At img px py = composite input o img (Z.to_nat (layers o)) px py.
Proof.
  intros Hres HMake Hin. rewrite Make_layersOf, Hres in HMake. cbn in HMake.
  destruct (layersOf input o (layers o)) as [st|] eqn:Hall; [|done].
  injection HMake as <-.
  unfold layersOf in Hall. destruct (blankImage o) as [bg|] eqn:Hbg; [|done].
  apply blankImage_wf in Hbg as (Hwf & _ & _ & Hfill). cbn in Hall.
  rewrite runLayers_to_nat in Hall.
  apply runLayers_composite in Hall as (_ & HDx & HDy & Hpix); [|done..].
  rewrite (composite_dims input o bg st.2) by done.
  apply Hpix. by rewrite <- (inBounds_dims bg st.2).
Qed.

(** X9. Every pixel of the image [Make] returns has the color of the
    last layer whose pattern has a block over that pixel, and the
    background color when no layer has one: the layers are composited in
    order, each overwriting what is below, for any number of layers. *)
Theorem pixel_is_last_covering_layer (input : string) (opts : list OptFunc)
    (o : options) (img : Image) (px py : Z) :
  resolveOptions (generateHash input) opts = Some o ->
  Make input opts = Some img ->
  inBounds img px py = true ->
  At img px py = composite input o img (Z.to_nat (layers o)) px py.
Proof. apply Make_pixel. Qed.

(** X10. A pixel that lies in no block of any layer's pattern keeps the
    background color. *)
Theorem uncovered_pixel_is_background (input : string) (opts : list OptFunc)
    (o : options) (img : Image) (px py : Z) :
  resolveOptions (generateHash input) opts = Some o ->
  Make input opts = Some img ->
  inBounds img px py = true ->
  (forall (l : nat) cells, Z.of_nat l < layers o ->
     layerCells (layerDigest input l) (gridSize o) = Some cells ->
     layerRegion img (gridSize o) (size o) cells px py = false) ->
  At img px py = bgColor o.
Proof.
  intros Hres HMake Hin Huncovered. rewrite (Make_pixel _ _ _ _ _ _ Hres HMake Hin).
  assert (forall n, Z.of_nat n <= Z.max 0 (layers o) ->
            composite input o img n px py = bgColor o) as Hn.
  { induction n as [|n IH]; intros Hle; [done|]. cbn.
    destruct (layerCells _ _) as [cells|] eqn:Hcells; [|apply IH; lia].
    destruct (avatarColor _ _ _) as [c|]; [|apply IH; lia].
    rewrite (Huncovered n cells) by (done || lia). apply IH. lia. }
  apply Hn. lia.
Qed.

Lemma pixel_is_last_covering_layer_witness :
  exists img,
    Make "test@example.com" [WithLayers 3; WithLayerColor 1 0 255 0 128] = Some img /\
    At img 0 0 = color.mk 101 55 101 255 /\
    At img 0 56 = color.mk 0 255 0 128 /\
    At img 8 0 = color.mk 240 240 240 255.
Proof.
  set (opts := [WithLayers 3; WithLayerColor 1 0 255 0 128]).
  set (o := mkOptions 64 8 (color.mk 240 240 240 255)
              [color.mk 53 53 53 255; color.mk 0 255 0 128] 3).
  assert (resolveOptions (generateHash "test@example.com") opts = Some o) as Hres
    by (vm_compute; reflexivity).
  destruct (Make_completes "test@example.com" opts o Hres) as [img HMake];
    [cbn; lia..|].
  destruct (Make_dims _ _ _ _ Hres HMake) as (_ & HDx & HDy).
  assert (forall px py, 0 <= px < 64 -> 0 <= py < 64 ->
            At img px py
            = composite "test@example.com" o (mkImage [] 64 64) 3 px py) as Hpix.
  { intros px py Hpx Hpy.
    rewrite (pixel_is_last_covering_layer "test@example.com" opts o img px py Hres HMake)
      by (apply inBounds_spec; rewrite HDx, HDy; cbn; lia).
    by apply composite_dims. }
  exists img. split; [exact HMake|].
  rewrite !Hpix by lia. vm_compute. repeat split; reflexivity.
Defined.

Lemma uncovered_pixel_is_background_witness :
  exists img,
    Make "custom-bg" [WithBgColor 255 0 0 255] = Some img /\
    At img 0 0 = color.mk 255 0 0 255.
Proof.
  set (opts := [WithBgColor 255 0 0 255]).
  set (o := mkOptions 64 8 (color.mk 255 0 0 255) [color.mk 100 51 48 255] 1).
  assert (resolveOptions (generateHash "custom-bg") opts = Some o) as Hres
    by (vm_compute; reflexivity).
  destruct (Make_completes "custom-bg" opts o Hres) as [img HMake]; [cbn; lia..|].
  destruct (Make_dims _ _ _ _ Hres HMake) as (_ & HDx & HDy).
  exists img. split; [exact HMake|].
  apply (uncovered_pixel_is_background "custom-bg" opts o img 0 0 Hres HMake).
  - apply inBounds_spec. rewrite HDx, HDy. cbn. lia.
  - intros l cells Hl Hcells. destruct l as [|l]; [|cbn in Hl; lia].
    rewrite (layerRegion_dims (mkImage [] 64 64) img) by assumption.
    vm_compute in Hcells. injection Hcells as <-. vm_compute. reflexivity.
Defined.

(** ** The test oracle *)

Lemma forRange_S {St : Type} (body : Z -> St -> option St) (n : nat) (s : St) :
  forRange 0 (Z.of_nat n + 1) body s = forRange 0 (Z.of_nat n) body s ≫= body (Z.of_nat n).
Proof.
  unfold forRange. rewrite !Z.sub_0_r.
  replace (Z.of_nat n + 1) with (Z.of_nat (S n)) by lia.
  by rewrite seqZ_S, forEach_snoc.
Qed.

Lemma avatarColor_is_Some (o : options) (digest : string) (l : Z) :
  0 <= l -> (3 <= String.length digest)%nat -> is_Some (avatarColor o digest l).
Proof.
  intros Hl Hlen. unfold avatarColor.
  destruct (Z.ltb_spec l (Z.of_nat (length (fgColors o)))) as [Hlt|Hge];
    [|by apply hashColor_long].
  destruct (lookup_lt_is_Some_2 (fgColors o) (Z.to_nat l)) as [c' ->]; [lia|].
  cbn. destruct (decide (c' = color.zero)); [by apply hashColor_long | by eexists].
Qed.

Lemma scaled_one (imageSize gridSize : Z) :
  0 < gridSize -> gridSize <= 2 * imageSize -> 1 <= scaled 1 imageSize gridSize.
Proof.
  intros Hg Hs. rewrite scaled_nonneg by lia.
  apply Z.div_le_lower_bound; lia.
Qed.

(** The pixel (0, 0) lies in the block of the cell (0, 0) and in no other. *)
Lemma topLeft_region (img : Image) (digest : string) (gridSize imageSize : Z) :
  2 <= gridSize -> gridSize <= 2 * imageSize ->
  Dx img = imageSize -> Dy img = imageSize ->
  layerRegion img gridSize imageSize
    (gridCells digest gridSize (negb (gridSize `rem` 2 =? 0))) 0 0
  = bitOf (rowByte digest 0) 0.
Proof.
  intros Hg Hs HDx HDy.
  set (b k := scaled k imageSize gridSize).
  assert (forall i j, 0 <= i <= j -> b i <= b j) as Hmono
    by (intros i j Hij; apply scaled_mono; lia).
  assert (b 0 = 0) as Hb0 by apply scaled_zero.
  assert (1 <= b 1) as Hb1 by (apply scaled_one; lia).
  assert (b 0 <= 0 < b (0 + 1)) as Hfirst by (change (0 + 1) with 1; lia).
  assert (0 < gridSize `quot` 2) as Hq
    by (rewrite Z.quot_div_nonneg by lia; apply Z.div_str_pos; lia).
  assert (forall x y, 0 <= x < gridSize -> 0 <= y < gridSize ->
            inRect (cellRect img x y gridSize imageSize) 0 0 = true <->
            b x <= 0 < b (x + 1) /\ b y <= 0 < b (y + 1)) as Hin.
  { intros x y Hx Hy. rewrite cellRect_inside by (done || lia).
    unfold inRect. rewrite !andb_true_iff. subst b. cbn. lia. }
  apply bool_eq_iff. unfold layerRegion. rewrite existsb_exists. split.
  - intros ([x y] & Hcell%list_elem_of_In & Hrect). cbn [fst snd] in Hrect.
    pose proof (gridCells_in_grid _ _ _ _ Hcell) as [Hx Hy].
    apply Hin in Hrect as [Hpx Hpy]; [|done..].
    assert (x = 0) as -> by (apply (interval_unique b x 0 0); done || lia).
    assert (y = 0) as -> by (apply (interval_unique b y 0 0); done || lia).
    apply gridCells_left in Hcell; [done | lia | lia].
  - intros Hbit. exists (0, 0). split.
    + apply list_elem_of_In, gridCells_left; [lia | lia | done].
    + cbn [fst snd]. apply Hin; [lia | lia | done].
Qed.

Lemma expected_loop (input : string) (o : options) (img : Image) (n : nat) :
  2 <= gridSize o <= 32 -> gridSize o <= 2 * size o ->
  Dx img = size o -> Dy img = size o ->
  forRange 0 (Z.of_nat n) (expectedStep o) (generateHash input, bgColor o)
  = Some (layerDigest input (pred n), composite input o img n 0 0).
Proof.
  intros Hg Hs HDx HDy. induction n as [|n IH]; [done|].
  replace (Z.of_nat (S n)) with (Z.of_nat n + 1) by lia.
  rewrite forRange_S, IH. cbn [mbind option_bind pred]. unfold expectedStep.
  cbn [fst snd].
  assert ((if 0 <? Z.of_nat n then generateHash (layerDigest input (pred n))
           else layerDigest input (pred n)) = layerDigest input n) as ->.
  { destruct n as [|n]; [done|]. by destruct (Z.ltb_spec 0 (Z.of_nat (S n))); [|lia]. }
  set (digest := layerDigest input n).
  assert (String.length digest = 32%nat) as Hlen by apply layerDigest_length.
  destruct (byteAt_in_range digest 0) as [h0 Hh0]; [lia|].
  destruct (avatarColor_is_Some o digest (Z.of_nat n)) as [c Hc]; [lia..|].
  rewrite Hh0. cbn [mbind option_bind composite]. fold digest.
  rewrite layerCells_Some, Hc, topLeft_region by (done || lia).
  assert (rowByte digest 0 = h0) as -> by (unfold rowByte; by rewrite Hh0).
  assert (bitOf h0 0 = (Z.land h0 1 =? 1)) as ->
    by (unfold bitOf; change (0 `rem` 8) with 0; by rewrite Z.shiftr_0_r).
  by destruct (Z.land h0 1 =? 1).
Qed.

(** X11. The color the test oracle [expectedTopLeftPixel] predicts is the
    color of the pixel (0, 0) of the image: for all exported options and
    every input on which [Make] returns, the assertion of [TestMake] on
    the top-left pixel holds. *)
Theorem top_left_matches_test_oracle (input : string) (opts : list OptFunc)
    (img : Image) :
  Forall exported opts ->
  Make input opts = Some img ->
  expectedTopLeftPixel input opts = Some (At img 0 0).
Proof.
  intros Hex HMake.
  destruct (resolveOptions (generateHash input) opts) as [o|] eqn:Hres;
    [|by rewrite Make_layersOf, Hres in HMake].
  pose proof (resolveOptions_bounds _ _ _ Hex Hres) as (Hsize & Hgrid & Hlayers).
  destruct (Make_Some_inv _ _ _ _ Hres HMake) as (Hrows & _ & _); [lia|].
  destruct (Make_dims _ _ _ _ Hres HMake) as (_ & HDx & HDy).
  rewrite (Make_pixel _ _ _ _ 0 0 Hres HMake)
    by (apply inBounds_spec; rewrite HDx, HDy; lia).
  unfold expectedTopLeftPixel. rewrite Hres. cbn [mbind option_bind].
  replace (layers o) with (Z.of_nat (Z.to_nat (layers o))) at 1 by lia.
  by rewrite (expected_loop input o img) by (done || lia).
Qed.

Lemma top_left_matches_test_oracle_witness :
  exists img,
    Make "custom-fg" [WithFgColor 10 20 30 255; WithLayers 2] = Some img /\
    expectedTopLeftPixel "custom-fg" [WithFgColor 10 20 30 255; WithLayers 2]
    = Some (At img 0 0).
Proof.
  set (opts := [WithFgColor 10 20 30 255; WithLayers 2]).
  assert (resolveOptions (generateHash "custom-fg") opts
          = Some (mkOptions 64 8 (color.mk 240 240 240 255) [color.mk 10 20 30 255] 2))
    as Hres by (vm_compute; reflexivity).
  destruct (Make_completes "custom-fg" opts _ Hres) as [img HMake]; [cbn; lia..|].
  exists img. split; [exact HMake|].
  apply (top_left_matches_test_oracle "custom-fg" opts img); [|exact HMake].
  repeat constructor.
Defined.

(** ** Mirror symmetry of the image *)

Lemma gridCells_mirror (h : string) (g c r : Z) :
  (c, r) ∈ gridCells h g (negb (g `rem` 2 =? 0)) ->
  (g - 1 - c, r) ∈ gridCells h g (negb (g `rem` 2 =? 0)).
Proof.
  rewrite !elem_of_gridCells, !elem_of_rowCells.
  intros [Hr [_ Hc]]. split; [done|]. split; [done|].
  pose proof (Z.quot_rem' g 2) as Hg. pose proof (Z.rem_bound_pos g 2) as Hrem.
  destruct Hc as [[Hc Hbit]|[(x & Hx & -> & Hbit)|(Hodd & -> & Hbit)]].
  - right; left. by exists c.
  - left. by replace (g - 1 - (g - 1 - x)) with x by lia.
  - right; right. split; [done|]. split; [|done].
    destruct (Z.eqb_spec (g `rem` 2) 0); [done | lia].
Qed.

Lemma scaled_multiple (k m gridSize : Z) :
  0 <= k -> 0 <= m -> 0 < gridSize -> scaled k (m * gridSize) gridSize = k * m.
Proof.
  intros Hk Hm Hg. rewrite scaled_nonneg by nia.
  replace (2 * (k * (m * gridSize)) + gridSize)
    with (gridSize + k * m * (2 * gridSize)) by lia.
  rewrite Z.div_add by lia. rewrite Z.div_small by lia. lia.
Qed.

(** When the image side is [m] grid cells' worth of pixels, the block of
    a cell is the mirror image of the block of the mirror cell. *)
Lemma layerRegion_mirror_1 (img : Image) (h : string) (g m px py : Z) :
  0 < g -> 0 < m -> Dx img = m * g -> Dy img = m * g ->
  layerRegion img g (m * g) (gridCells h g (negb (g `rem` 2 =? 0))) px py = true ->
  layerRegion img g (m * g) (gridCells h g (negb (g `rem` 2 =? 0))) (m * g - 1 - px) py
  = true.
Proof.
  intros Hg Hm HDx HDy. unfold layerRegion. rewrite !existsb_exists.
  intros ([x y] & Hcell%list_elem_of_In & Hrect). cbn [fst snd] in Hrect.
  pose proof (gridCells_in_grid _ _ _ _ Hcell) as [Hx Hy].
  exists (g - 1 - x, y). split; [by apply list_elem_of_In, gridCells_mirror|].
  cbn [fst snd]. revert Hrect.
  rewrite !cellRect_inside by (done || nia).
  rewrite !scaled_multiple by lia.
  unfold inRect. rewrite !andb_true_iff, !Z.leb_le, !Z.ltb_lt. nia.
Qed.

Lemma layerRegion_mirror (img : Image) (h : string) (g m px py : Z) :
  0 < g -> 0 < m -> Dx img = m * g -> Dy img = m * g ->
  layerRegion img g (m * g) (gridCells h g (negb (g `rem` 2 =? 0))) px py
  = layerRegion img g (m * g) (gridCells h g (negb (g `rem` 2 =? 0))) (m * g - 1 - px) py.
Proof.
  intros Hg Hm HDx HDy. apply bool_eq_iff. split.
  - by apply layerRegion_mirror_1.
  - intros Hmirror. apply (layerRegion_mirror_1 img h g m) in Hmirror; [|done..].
    by replace (m * g - 1 - (m * g - 1 - px)) with px in Hmirror by lia.
Qed.

(** X12. When the grid size divides the image size (as with the defaults,
    64 and 8), the image [Make] returns is left-right symmetric pixel by
    pixel: the pixel (px, py) and its mirror (size-1-px, py) have the same
    color. *)
Theorem image_is_mirror_symmetric (input : string) (opts : list OptFunc)
    (o : options) (img : Image) (px py : Z) :
  resolveOptions (generateHash input) opts = Some o ->
  Make input opts = Some img ->
  0 < gridSize o ->
  (gridSize o | size o) ->
  At img px py = At img (size o - 1 - px) py.
Proof.
  intros Hres HMake Hg [m Hm].
  destruct (Make_dims _ _ _ _ Hres HMake) as (_ & HDx & HDy).
  destruct (inBounds img px py) eqn:Hin.
  - pose proof Hin as [Hpx Hpy]%inBounds_spec.
    assert (0 < m) as Hmpos by nia.
    assert (inBounds img (size o - 1 - px) py = true) as Hin'
      by (apply inBounds_spec; lia).
    rewrite !(Make_pixel _ _ _ _ _ _ Hres HMake) by done.
    generalize (Z.to_nat (layers o)). intros n.
    induction n as [|n IH]; [done|]. cbn.
    destruct (layerCells _ _) as [cells|] eqn:Hcells; [|done].
    destruct (avatarColor _ _ _) as [c|]; [|done].
    apply layerCells_inv in Hcells as [_ ->].
    rewrite IH, Hm. rewrite Hm in HDx, HDy.
    by rewrite (layerRegion_mirror img _ _ m px py).
  - unfold At. rewrite Hin.
    destruct (inBounds img (size o - 1 - px) py) eqn:Hin'; [|done].
    apply inBounds_spec in Hin'.
    assert (inBounds img px py = true) by (apply inBounds_spec; lia). congruence.
Qed.

Lemma image_is_mirror_symmetric_witness :
  exists img,
    Make "test@example.com" [WithSize 96; WithGridSize 12; WithLayers 2] = Some img /\
    At img 5 17 = At img 90 17.
Proof.
  set (opts := [WithSize 96; WithGridSize 12; WithLayers 2]).
  set (o := mkOptions 96 12 (color.mk 240 240 240 255) [color.mk 53 53 53 255] 2).
  assert (resolveOptions (generateHash "test@example.com") opts = Some o) as Hres
    by (vm_compute; reflexivity).
  destruct (Make_completes "test@example.com" opts o Hres) as [img HMake];
    [cbn; lia..|].
  exists img. split; [exact HMake|].
  apply (image_is_mirror_symmetric "test@example.com" opts o img 5 17 Hres HMake).
  - cbn. lia.
  - exists 8. reflexivity.
Defined.

(** Without the divisibility the symmetry can fail by a pixel: with 65
    pixels for 10 cells the first block is 7 pixels wide and the last
    one 6. *)
Example image_not_mirror_symmetric_65_10 :
  (fun img => (At img 6 0, At img 58 0))
    <$> Make "test@example.com" [WithSize 65; WithGridSize 10]
  = Some (color.mk 53 53 53 255, color.mk 240 240 240 255).
Proof. vm_compute. reflexivity. Qed.

(** ** The image, cell by cell *)

(** A pixel of the block of a cell lies in the block of no other cell:
    a pattern covers it exactly when that cell is on. *)
Lemma block_region (img : Image) (h : string) (gridSize imageSize x y px py : Z) :
  0 < gridSize -> 0 < imageSize -> Dx img = imageSize -> Dy img = imageSize ->
  0 <= x < gridSize -> 0 <= y < gridSize ->
  inRect (cellRect img x y gridSize imageSize) px py = true ->
  layerRegion img gridSize imageSize
    (gridCells h gridSize (negb (gridSize `rem` 2 =? 0))) px py
  = cellOn (gridCells h gridSize (negb (gridSize `rem` 2 =? 0))) x y.
Proof.
  intros Hg Hs HDx HDy Hx Hy.
  set (b k := scaled k imageSize gridSize).
  assert (forall i j, 0 <= i <= j -> b i <= b j) as Hmono
    by (intros i j Hij; apply scaled_mono; lia).
  assert (forall x y, 0 <= x < gridSize -> 0 <= y < gridSize ->
            inRect (cellRect img x y gridSize imageSize) px py = true <->
            b x <= px < b (x + 1) /\ b y <= py < b (y + 1)) as Hin.
  { intros x0 y0 Hx0 Hy0. rewrite cellRect_inside by done.
    unfold inRect. rewrite !andb_true_iff. subst b. cbn. lia. }
  intros [Hpx Hpy]%Hin; [|done..].
  apply bool_eq_iff. unfold layerRegion, cellOn.
  rewrite existsb_exists, bool_decide_eq_true. split.
  - intros ([x' y'] & Hcell%list_elem_of_In & Hrect'). cbn [fst snd] in Hrect'.
    pose proof (gridCells_in_grid _ _ _ _ Hcell) as [Hx' Hy'].
    apply Hin in Hrect' as [Hpx' Hpy']; [|done..].
    assert (x' = x) as -> by (apply (interval_unique b x' x px); done || lia).
    assert (y' = y) as -> by (apply (interval_unique b y' y py); done || lia).
    done.
  - intros Hcell. exists (x, y). split; [by apply list_elem_of_In|].
    cbn [fst snd]. by apply Hin.
Qed.

(** X16. The image is the pattern of cells scaled up: every pixel of the
    block of a grid cell has the color of that cell, which is the color
    of the last layer whose pattern has the cell on, or the background
    color when no layer has. *)
Theorem pixel_has_the_color_of_its_cell (input : string) (opts : list OptFunc)
    (o : options) (img : Image) (x y px py : Z) :
  resolveOptions (generateHash input) opts = Some o ->
  Make input opts = Some img ->
  0 <= x < gridSize o -> 0 <= y < gridSize o ->
  inRect (cellRect img x y (gridSize o) (size o)) px py = true ->
  At img px py = cellColor input o (Z.to_nat (layers o)) x y.
Proof.
  intros Hres HMake Hx Hy Hrect.
  destruct (Make_dims _ _ _ _ Hres HMake) as ((Hnonneg & _) & HDx & HDy).
  assert (inBounds img px py = true) as Hin
    by (apply (inRect_inBounds _ x y (gridSize o) (size o)); done || lia).
  assert (0 < size o) as Hs by (apply inBounds_spec in Hin; lia).
  rewrite (Make_pixel _ _ _ _ _ _ Hres HMake Hin).
  generalize (Z.to_nat (layers o)). intros n.
  induction n as [|n IH]; [done|]. cbn.
  destruct (layerCells _ _) as [cells|] eqn:Hcells; [|done].
  destruct (avatarColor _ _ _) as [c|]; [|done].
  apply layerCells_inv in Hcells as [_ ->].
  by rewrite IH, (block_region img _ _ _ x y px py) by (done || lia).
Qed.

Lemma pixel_has_the_color_of_its_cell_witness :
  exists img,
    Make "nice__user__name" [WithSize 500; WithGridSize 13] = Some img /\
    At img 250 3 = cellColor "nice__user__name"
                     (mkOptions 500 13 (color.mk 240 240 240 255)
                        [color.mk 49 55 54 255] 1) 1 6 0.
Proof.
  set (opts := [WithSize 500; WithGridSize 13]).
  set (o := mkOptions 500 13 (color.mk 240 240 240 255) [color.mk 49 55 54 255] 1).
  assert (resolveOptions (generateHash "nice__user__name") opts = Some o) as Hres
    by (vm_compute; reflexivity).
  destruct (Make_completes "nice__user__name" opts o Hres) as [img HMake];
    [cbn; lia..|].
  destruct (Make_dims _ _ _ _ Hres HMake) as (_ & HDx & HDy).
  exists img. split; [exact HMake|].
  apply (pixel_has_the_color_of_its_cell "nice__user__name" opts o img 6 0 250 3
           Hres HMake); [cbn; lia | cbn; lia |].
  rewrite (cellRect_dims (mkImage [] 500 500) img) by assumption.
  vm_compute. reflexivity.
Defined.

(** X15. [Make] never blends: every pixel of the image is either the
    background color or the color of one of the layers. *)
Theorem pixel_is_background_or_layer_color (input : string) (opts : list OptFunc)
    (o : options) (img : Image) (px py : Z) :
  resolveOptions (generateHash input) opts = Some o ->
  Make input opts = Some img ->
  inBounds img px py = true ->
  At img px py = bgColor o \/
  exists l : nat, Z.of_nat l < layers o /\
    avatarColor o (layerDigest input l) (Z.of_nat l) = Some (At img px py).
Proof.
  intros Hres HMake Hin. rewrite (Make_pixel _ _ _ _ _ _ Hres HMake Hin).
  assert (forall n, Z.of_nat n <= Z.max 0 (layers o) ->
            composite input o img n px py = bgColor o \/
            exists l : nat, Z.of_nat l < layers o /\
              avatarColor o (layerDigest input l) (Z.of_nat l)
              = Some (composite input o img n px py)) as Hn.
  { induction n as [|n IH]; intros Hle; [by left|]. cbn.
    destruct (layerCells _ _) as [cells|]; [|apply IH; lia].
    destruct (avatarColor _ _ _) as [c|] eqn:Hc; [|apply IH; lia].
    destruct (layerRegion _ _ _ _ _ _); [|apply IH; lia].
    right. exists n. split; [lia | done]. }
  apply Hn. lia.
Qed.

Lemma pixel_is_background_or_layer_color_witness :
  exists img,
    Make "MultiLayer2" [WithLayers 2] = Some img /\
    (At img 20 20 = color.mk 240 240 240 255 \/
     exists l : nat, Z.of_nat l < 2 /\
       avatarColor (mkOptions 64 8 (color.mk 240 240 240 255) [color.mk 49 57 101 255] 2)
         (layerDigest "MultiLayer2" l) (Z.of_nat l) = Some (At img 20 20)).
Proof.
  set (o := mkOptions 64 8 (color.mk 240 240 240 255) [color.mk 49 57 101 255] 2).
  assert (resolveOptions (generateHash "MultiLayer2") [WithLayers 2] = Some o) as Hres
    by (vm_compute; reflexivity).
  destruct (Make_completes "MultiLayer2" [WithLayers 2] o Hres) as [img HMake];
    [cbn; lia..|].
  destruct (Make_dims _ _ _ _ Hres HMake) as (_ & HDx & HDy).
  exists img. split; [exact HMake|].
  apply (pixel_is_background_or_layer_color "MultiLayer2" [WithLayers 2] o img 20 20
           Hres HMake).
  apply inBounds_spec. rewrite HDx, HDy. cbn. lia.
Defined.

(** ** Two ways to set the foreground *)

(** X13. [WithLayerColor(0, r,g,b,a)] has the effect of
    [WithFgColor(r,g,b,a)] exactly on the configurations that hold at
    most one layer color; with more, [WithLayerColor] keeps the colors of
    the other layers and [WithFgColor] drops them. *)
Theorem WithLayerColor_0_is_WithFgColor (o : options) (r g b a : Z) :
  WithLayerColor 0 r g b a o = WithFgColor r g b a o
  <-> (length (fgColors o) <= 1)%nat.
Proof.
  rewrite WithLayerColor_nonneg by lia. unfold WithFgColor. rewrite expand_eq.
  destruct (fgColors o) as [|c0 [|c1 rest]] eqn:Hfg.
  - split; [cbn; lia | reflexivity].
  - split; [cbn; lia | reflexivity].
  - replace (Z.to_nat (0 + 1 - Z.of_nat (length (c0 :: c1 :: rest)))) with 0%nat
      by (cbn [length]; lia).
    split; [discriminate | cbn; lia].
Qed.

(** X14. An all-zero foreground color cannot be requested: it is the
    "unset" sentinel, so [Make] with [WithFgColor(0,0,0,0)] returns the
    image it returns with no option at all. *)
Theorem zero_foreground_is_ignored (input : string) :
  Make input [WithFgColor 0 0 0 0] = Make input [].
Proof.
  rewrite !Make_layersOf. unfold resolveOptions, defaultOptions.
  destruct (byteAt (generateHash input) 0) as [h0|] eqn:H0; [|done].
  destruct (byteAt (generateHash input) 1) as [h1|] eqn:H1; [|done].
  destruct (byteAt (generateHash input) 2) as [h2|] eqn:H2; [|done].
  cbn [mbind option_bind forEach WithFgColor size gridSize bgColor layers].
  unfold layersOf, blankImage.
  cbn [mbind option_bind size gridSize bgColor layers].
  destruct (NewRGBA 64 64) as [img0|]; [|done].
  cbn [mbind option_bind]. rewrite !runLayers_1. unfold layerStep, avatarColor.
  cbn [fst snd fgColors gridSize size length lookup list_lookup].
  change (0 <? Z.of_nat 1) with true. cbn [Z.to_nat mbind option_bind].
  change (Z.to_nat 0) with 0%nat. change (0 <? 0) with false.
  change ([color.mk 0 0 0 0] !! 0%nat) with (Some color.zero).
  change ([color.mk h0 h1 h2 255] !! 0%nat) with (Some (color.mk h0 h1 h2 255)).
  cbn [mbind option_bind].
  destruct (decide (color.zero = color.zero)) as [_|Hne]; [|done].
  destruct (decide (color.mk h0 h1 h2 255 = color.zero)) as [Heq|_];
    [discriminate Heq|].
  unfold hashColor. rewrite H0, H1, H2. reflexivity.
Qed.
